(** * craft_platforms._distro: distribution bases and their comparison

    A shallow embedding of [craft_platforms/_distro.py] together with the
    parts of the Python run time the module leans on ([str.split],
    [str.count], [str.partition], [repr], [int] and the rich comparison of
    tuples), followed by the properties of the module.

    Conventions.
    - A Python [str] is a [string]; every [ascii] stands for one code point
      below 256 (so [String.ltb] is Python's code-point order).
    - A Python [int] is a [Z].
    - A raised exception is the [Raise] branch of [Py.result].
    - [int] refuses a text of more than [Py.max_str_digits] digits, the
      default of the interpreter's limit on integer conversions. *)

From Stdlib Require Import ZArith NArith Ascii String List Bool Lia.
From stdpp Require Import base list strings.

(** ** The Python run time *)

Module Py.

Inductive exn : Type :=
| ValueError (msg : string)
| TypeError
| IndexError.

Inductive result (A : Type) : Type :=
| Ok (a : A)
| Raise (e : exn).
Arguments Ok {A} a.
Arguments Raise {A} e.

#[global] Instance result_ret : MRet result := fun A a => Ok a.
#[global] Instance result_bind : MBind result := fun A B k c =>
  match c with
  | Ok a => k a
  | Raise e => Raise e
  end.

Definition ord (c : ascii) : N := N_of_ascii c.

(** [Py_ISSPACE] of pyctype.h: tab, LF, VT, FF, CR and space. *)
Definition Py_ISSPACE (c : ascii) : bool :=
  ((9 <=? ord c) && (ord c <=? 13) || (ord c =? 32))%N.

(** [Py_UNICODE_ISSPACE] below 256: the above, the separators
    0x1c-0x1f, NEL (0x85) and the no-break space (0xa0). *)
Definition Py_UNICODE_ISSPACE (c : ascii) : bool :=
  (Py_ISSPACE c || (28 <=? ord c) && (ord c <=? 31)
   || (ord c =? 133) || (ord c =? 160))%N.

(** *** [int(str)] *)

(** [_PyUnicode_TransformDecimalAndSpaceToASCII]: code points below 127
    are kept, other white space becomes a space, and the text is cut
    after a question mark at the first other character (no code point
    from 127 to 255 is a decimal digit). *)
Fixpoint TransformDecimalAndSpaceToASCII (s : string) : string :=
  match s with
  | EmptyString => EmptyString
  | String c s' =>
      if (ord c <? 127)%N then String c (TransformDecimalAndSpaceToASCII s')
      else if Py_UNICODE_ISSPACE c
           then String " " (TransformDecimalAndSpaceToASCII s')
           else String "?" EmptyString
  end.

Fixpoint skip_space (s : string) : string :=
  match s with
  | EmptyString => EmptyString
  | String c s' => if Py_ISSPACE c then skip_space s' else s
  end.

Definition digit_value (c : ascii) : option N :=
  if ((48 <=? ord c) && (ord c <=? 57))%N then Some (ord c - 48)%N else None.

Definition is_underscore (c : ascii) : bool := (ord c =? 95)%N.

(** The default of the interpreter's limit on the digits of a text that
    [int] converts ([sys.int_info.default_max_str_digits]). *)
Definition max_str_digits : N := 4300%N.

(** The scanning loop of [long_from_string_base]: digits and single
    underscores; [prev] tells whether the previous character was an
    underscore and [digits] counts the digits read.  Returns the count,
    the value read and the text left. *)
Fixpoint scan_digits (prev : bool) (digits acc : N) (s : string)
  : option (N * N * string) :=
  match s with
  | EmptyString => if prev then None else Some (digits, acc, EmptyString)
  | String c s' =>
      match digit_value c with
      | Some d => scan_digits false (digits + 1)%N (10 * acc + d)%N s'
      | None =>
          if is_underscore c
          then if prev then None else scan_digits true digits acc s'
          else if prev then None else Some (digits, acc, s)
      end
  end.

(** No leading underscore, at least one digit, and no more digits than
    the limit allows (the limit is above the threshold of 640 digits
    under which the run time skips the check). *)
Definition long_from_string_base (s : string) : option (N * string) :=
  match s with
  | String c _ =>
      if is_underscore c then None
      else match scan_digits false 0%N 0%N s with
           | Some (digits, v, rest) =>
               if (String.length rest =? String.length s)%nat then None
               else if (max_str_digits <? digits)%N then None
               else Some (v, rest)
           | None => None
           end
  | EmptyString => None
  end.

(** [PyLong_FromString] in base 10, with the check of
    [PyLong_FromUnicodeObject] that the whole text was read. *)
Definition PyLong_FromString (s : string) : option Z :=
  let s1 := skip_space s in
  let '(sign, s2) :=
    match s1 with
    | String c r =>
        if (ord c =? 43)%N then (1%Z, r)
        else if (ord c =? 45)%N then ((-1)%Z, r)
        else (1%Z, s1)
    | EmptyString => (1%Z, s1)
    end in
  match long_from_string_base s2 with
  | Some (v, rest) =>
      match skip_space rest with
      | EmptyString => Some (sign * Z.of_N v)%Z
      | String _ _ => None
      end
  | None => None
  end.

(** [int(s)]; [None] stands for the [ValueError] it raises. *)
Definition int (s : string) : option Z :=
  PyLong_FromString (TransformDecimalAndSpaceToASCII s).

(** *** [str] methods *)

(** [s.split(sep)] for a one-character separator. *)
Fixpoint split (sep : ascii) (s : string) : list string :=
  match s with
  | EmptyString => [EmptyString]
  | String c s' =>
      if Ascii.eqb c sep then EmptyString :: split sep s'
      else match split sep s' with
           | t :: ts => String c t :: ts
           | [] => [String c EmptyString]
           end
  end.

(** [s.split()]: the maximal runs of characters that are not white
    space. *)
Fixpoint split_whitespace (s : string) : list string :=
  match s with
  | EmptyString => []
  | String c s' =>
      if Py_UNICODE_ISSPACE c then split_whitespace s'
      else match s' with
           | EmptyString => [String c EmptyString]
           | String c' _ =>
               if Py_UNICODE_ISSPACE c'
               then String c EmptyString :: split_whitespace s'
               else match split_whitespace s' with
                    | t :: ts => String c t :: ts
                    | [] => [String c EmptyString]
                    end
           end
  end.

(** [s.count(sep)] for a one-character [sep]. *)
Fixpoint count (sep : ascii) (s : string) : nat :=
  match s with
  | EmptyString => 0
  | String c s' => (if Ascii.eqb c sep then 1 else 0) + count sep s'
  end.

(** The text before and after the first [sep], when there is one. *)
Fixpoint find_split (sep : ascii) (s : string) : option (string * string) :=
  match s with
  | EmptyString => None
  | String c s' =>
      if Ascii.eqb c sep then Some (EmptyString, s')
      else match find_split sep s' with
           | Some (a, b) => Some (String c a, b)
           | None => None
           end
  end.

(** [s.partition(sep)] for a one-character [sep]. *)
Definition partition (sep : ascii) (s : string) : string * string * string :=
  match find_split sep s with
  | Some (a, b) => (a, String sep EmptyString, b)
  | None => (s, EmptyString, EmptyString)
  end.

Fixpoint contains_char (c : ascii) (s : string) : bool :=
  match s with
  | EmptyString => false
  | String c' s' => Ascii.eqb c' c || contains_char c s'
  end.

(** *** [repr(str)] *)

Definition squote : ascii := "039"%char.
Definition dquote : ascii := "034"%char.
Definition backslash : ascii := "092"%char.

Definition hex_digit (n : N) : ascii :=
  match String.get (N.to_nat n) "0123456789abcdef" with
  | Some c => c
  | None => "0"%char
  end.

Definition hex_escape (c : ascii) : string :=
  String backslash
    (String "x" (String (hex_digit (ord c / 16)) (String (hex_digit (ord c mod 16)) EmptyString))).

(** [str.isprintable] on one code point at or above 127. *)
Definition high_printable (c : ascii) : bool :=
  ((161 <=? ord c) && negb (ord c =? 173))%N.

Definition repr_char (quote c : ascii) : string :=
  if Ascii.eqb c quote || Ascii.eqb c backslash
  then String backslash (String c EmptyString)
  else if (ord c =? 9)%N then String backslash (String "t" EmptyString)
  else if (ord c =? 10)%N then String backslash (String "n" EmptyString)
  else if (ord c =? 13)%N then String backslash (String "r" EmptyString)
  else if ((ord c <? 32) || (ord c =? 127))%N then hex_escape c
  else if (ord c <? 127)%N then String c EmptyString
  else if high_printable c then String c EmptyString
  else hex_escape c.

Fixpoint repr_body (quote : ascii) (s : string) : string :=
  match s with
  | EmptyString => EmptyString
  | String c s' => repr_char quote c +:+ repr_body quote s'
  end.

(** Single quotes unless the text has single quotes and no double
    quote. *)
Definition repr (s : string) : string :=
  let quote :=
    if contains_char squote s && negb (contains_char dquote s)
    then dquote else squote in
  String quote (repr_body quote s +:+ String quote EmptyString).

(** *** Rich comparison *)

Inductive cmpop : Type := Py_LT | Py_LE | Py_GT | Py_GE.

(** The operator the run time tries on the right operand when the left
    one declines. *)
Definition swapped (op : cmpop) : cmpop :=
  match op with
  | Py_LT => Py_GT
  | Py_LE => Py_GE
  | Py_GT => Py_LT
  | Py_GE => Py_LE
  end.

(** An element of a version tuple: [int | str]. *)
Inductive int_or_str : Type :=
| PyInt (z : Z)
| PyStr (s : string).

#[global] Instance int_or_str_eq_dec : EqDecision int_or_str.
Proof. solve_decision. Defined.

(** [==] on two elements: an [int] never equals a [str]. *)
Definition item_eq (a b : int_or_str) : bool :=
  match a, b with
  | PyInt x, PyInt y => (x =? y)%Z
  | PyStr x, PyStr y => String.eqb x y
  | _, _ => false
  end.

Definition int_richcompare (op : cmpop) (x y : Z) : bool :=
  match op with
  | Py_LT => (x <? y)%Z
  | Py_LE => (x <=? y)%Z
  | Py_GT => (y <? x)%Z
  | Py_GE => (y <=? x)%Z
  end.

Definition str_richcompare (op : cmpop) (x y : string) : bool :=
  match op with
  | Py_LT => String.ltb x y
  | Py_LE => String.leb x y
  | Py_GT => String.ltb y x
  | Py_GE => String.leb y x
  end.

Definition len_richcompare (op : cmpop) (m n : nat) : bool :=
  match op with
  | Py_LT => (m <? n)%nat
  | Py_LE => (m <=? n)%nat
  | Py_GT => (n <? m)%nat
  | Py_GE => (n <=? m)%nat
  end.

(** An ordering between an [int] and a [str] is a [TypeError]. *)
Definition item_richcompare (op : cmpop) (a b : int_or_str) : result bool :=
  match a, b with
  | PyInt x, PyInt y => Ok (int_richcompare op x y)
  | PyStr x, PyStr y => Ok (str_richcompare op x y)
  | _, _ => Raise TypeError
  end.

(** [tuplerichcompare]: skip the leading elements that are equal, then
    compare the first pair that differs, or the lengths when one tuple
    runs out. *)
Fixpoint tuplerichcompare (op : cmpop) (v w : list int_or_str) : result bool :=
  match v, w with
  | x :: v', y :: w' =>
      if item_eq x y then tuplerichcompare op v' w'
      else item_richcompare op x y
  | _, _ => Ok (len_richcompare op (length v) (length w))
  end.

(** [t[i]] on a tuple. *)
Definition getitem {A} (t : list A) (i : nat) : result A :=
  match t !! i with
  | Some x => Ok x
  | None => Raise IndexError
  end.

End Py.


(** ** The [distro] package: what a [LinuxDistribution] answers *)

Module distro.
Record LinuxDistribution : Type := {
  id : string;
  version : string;
  like : string
}.
End distro.

(** ** craft_platforms/_distro.py *)

Import Py.

Record DistroBase : Type := {
  distribution : string;
  series : string
}.

#[global] Instance DistroBase_eq_dec : EqDecision DistroBase.
Proof. solve_decision. Defined.

(** What the right operand of a comparison can be: a [DistroBase], an
    object with [name] and [version] attributes (the [BaseName]
    protocol), a tuple of strings of any length, or an object that is
    none of these (a bare [object()], told apart by its identity). *)
Inductive operand : Type :=
| IsDistroBase (b : DistroBase)
| IsBaseName (name version : string)
| IsTuple (items : list string)
| IsObject (ident : nat).

(** [int(part)] on an element of [parts]. *)
Definition int_of_part (part : int_or_str) : option Z :=
  match part with
  | PyStr s => int s
  | PyInt z => Some z
  end.

(** The loop [for idx, part in enumerate(parts)] with its assignment
    [parts[idx] = int(part)] skipped when [int] raises [ValueError].
    [n] bounds the number of iterations; the iterator stops at the end
    of the list. *)
Fixpoint convert_parts (n idx : nat) (parts : list int_or_str) : list int_or_str :=
  match n with
  | O => parts
  | S n' =>
      match parts !! idx with
      | None => parts
      | Some part =>
          convert_parts n' (S idx)
            (match int_of_part part with
             | Some z => <[idx := PyInt z]> parts
             | None => parts
             end)
      end
  end.

Definition _get_version_tuple (version_str : string) : list int_or_str :=
  let parts := PyStr <$> split "." version_str in
  convert_parts (length parts) 0 parts.

Definition _get_version (base : operand) : result string :=
  match base with
  | IsDistroBase b => Ok (series b)
  | IsBaseName _ version => Ok version
  | IsTuple items => getitem items 1
  | IsObject _ => Raise TypeError
  end.

Definition incompatible_message (self_distro other_distro : string) : string :=
  "Different distributions (" +:+ self_distro +:+ " and " +:+ other_distro
  +:+ ") do not have comparable versions.".

Definition _ensure_bases_comparable (self : DistroBase) (other : operand)
  : result unit :=
  other_distro ←
    match other with
    | IsDistroBase b => Ok (distribution b)
    | IsBaseName name _ => Ok name
    | IsTuple items => getitem items 0
    | IsObject _ => Raise TypeError
    end;
  if bool_decide (distribution self ≠ other_distro)
  then Raise (ValueError (incompatible_message (distribution self) other_distro))
  else Ok tt.

(** What [__eq__] returns: a boolean or [NotImplemented]. *)
Inductive eq_result : Type :=
| Bool (v : bool)
| NotImplemented.

Definition __eq__ (self : DistroBase) (other : operand) : result eq_result :=
  match other with
  | IsDistroBase b =>
      Ok (Bool (String.eqb (distribution self) (distribution b)
                && String.eqb (series self) (series b)))
  | IsBaseName name version =>
      Ok (Bool (String.eqb (distribution self) name
                && String.eqb (series self) version))
  | IsTuple items =>
      first ← getitem items 0;
      if String.eqb (distribution self) first
      then second ← getitem items 1;
           Ok (Bool (String.eqb (series self) second))
      else Ok (Bool false)
  | IsObject _ => Ok NotImplemented
  end.

Definition __lt__ (self : DistroBase) (other : operand) : result bool :=
  _ ← _ensure_bases_comparable self other;
  let self_version_tuple := _get_version_tuple (series self) in
  other_version ← _get_version other;
  let other_version_tuple := _get_version_tuple other_version in
  tuplerichcompare Py_LT self_version_tuple other_version_tuple.

Definition __le__ (self : DistroBase) (other : operand) : result bool :=
  _ ← _ensure_bases_comparable self other;
  let self_version_tuple := _get_version_tuple (series self) in
  other_version ← _get_version other;
  let other_version_tuple := _get_version_tuple other_version in
  tuplerichcompare Py_LE self_version_tuple other_version_tuple.

Definition __gt__ (self : DistroBase) (other : operand) : result bool :=
  _ ← _ensure_bases_comparable self other;
  let self_version_tuple := _get_version_tuple (series self) in
  other_version ← _get_version other;
  let other_version_tuple := _get_version_tuple other_version in
  tuplerichcompare Py_GT self_version_tuple other_version_tuple.

Definition __ge__ (self : DistroBase) (other : operand) : result bool :=
  _ ← _ensure_bases_comparable self other;
  let self_version_tuple := _get_version_tuple (series self) in
  other_version ← _get_version other;
  let other_version_tuple := _get_version_tuple other_version in
  tuplerichcompare Py_GE self_version_tuple other_version_tuple.

Definition malformed_message (base_str : string) : string :=
  "Invalid base string " +:+ repr base_str
  +:+ ". Format should be '<distribution>@<series>'".

Definition from_str (base_str : string) : result DistroBase :=
  if bool_decide (count "@" base_str ≠ 1)
  then Raise (ValueError (malformed_message base_str))
  else
    let '(distribution, _, series) := partition "@" base_str in
    Ok {| distribution := distribution; series := series |}.

Definition from_linux_distribution (d : distro.LinuxDistribution) : DistroBase :=
  {| distribution := distro.id d; series := distro.version d |}.

(** [host] is what [distro.LinuxDistribution()] finds on the machine. *)
Definition is_ubuntu_like (host : distro.LinuxDistribution)
    (distribution : option distro.LinuxDistribution) : bool :=
  let distribution := default host distribution in
  if String.eqb (distro.id distribution) "ubuntu" then true
  else
    let distros_like := split_whitespace (distro.like distribution) in
    if bool_decide ("ubuntu" ∈ distros_like) then true
    else false.

(** ** The operators as the run time dispatches them *)

(** [b == o] with a [DistroBase] on the left.  When [__eq__] answers
    [NotImplemented] the reflected [__eq__] of a bare object declines as
    well and the run time falls back on identity, which is false for two
    different objects. *)
Definition base_eq (b : DistroBase) (o : operand) : result bool :=
  r ← __eq__ b o;
  match r with
  | Bool v => Ok v
  | NotImplemented => Ok false
  end.

(** [o == b] with a [DistroBase] on the right.  Tuples, objects with
    [name] and [version], and bare objects decline to compare with a
    [DistroBase], so the run time asks the right operand. *)
Definition eq_base (o : operand) (b : DistroBase) : result bool :=
  match o with
  | IsDistroBase a => base_eq a (IsDistroBase b)
  | _ => base_eq b o
  end.

(** [b != o]: the inherited [__ne__] inverts what [__eq__] returns and
    passes [NotImplemented] on; identity then answers true. *)
Definition base_ne (b : DistroBase) (o : operand) : result bool :=
  r ← __eq__ b o;
  match r with
  | Bool v => Ok (negb v)
  | NotImplemented => Ok true
  end.

Definition method (op : cmpop) : DistroBase -> operand -> result bool :=
  match op with
  | Py_LT => __lt__
  | Py_LE => __le__
  | Py_GT => __gt__
  | Py_GE => __ge__
  end.

(** [b op o] with a [DistroBase] on the left. *)
Definition base_cmp (op : cmpop) (b : DistroBase) (o : operand) : result bool :=
  method op b o.

(** [o op b] with a [DistroBase] on the right: the left operand of
    another shape declines, and the run time calls the reflected method
    of [b]. *)
Definition cmp_base (op : cmpop) (o : operand) (b : DistroBase) : result bool :=
  match o with
  | IsDistroBase a => method op a (IsDistroBase b)
  | _ => method (swapped op) b o
  end.

(** ** Vocabulary of the properties *)

(** [x] occurs in [s] as a contiguous piece. *)
Definition occurs_in (x s : string) : Prop :=
  ∃ pre post, s = pre +:+ x +:+ post.

Definition free_of (c : ascii) (s : string) : Prop :=
  c ∉ list_ascii_of_string s.

(** The pieces of [s] between the occurrences of [sep]: joining them with
    [sep] gives [s] back and no piece holds a [sep]. *)
Definition tokens_of (sep : ascii) (s : string) (ts : list string) : Prop :=
  ts ≠ [] ∧ String.concat (String sep EmptyString) ts = s ∧ Forall (free_of sep) ts.

(** A token that parses as an integer becomes that integer, any other
    token stays as it is. *)
Definition coerce (tok : string) : int_or_str :=
  match int tok with
  | Some z => PyInt z
  | None => PyStr tok
  end.

(** The body the four ordering methods have in common, with the relation
    left open. *)
Definition ordering (op : cmpop) (self : DistroBase) (other : operand)
  : result bool :=
  _ ← _ensure_bases_comparable self other;
  other_version ← _get_version other;
  tuplerichcompare op (_get_version_tuple (series self))
    (_get_version_tuple other_version).

(** The distribution identifier and the version string of an operand,
    by its shape; a tuple has them when it is long enough. *)
Definition operand_distribution (o : operand) : option string :=
  match o with
  | IsDistroBase b => Some (distribution b)
  | IsBaseName name _ => Some name
  | IsTuple items => items !! 0
  | IsObject _ => None
  end.

Definition operand_version (o : operand) : option string :=
  match o with
  | IsDistroBase b => Some (series b)
  | IsBaseName _ version => Some version
  | IsTuple items => items !! 1
  | IsObject _ => None
  end.

(** [r] is the error about two distributions that do not compare, and
    its message shows both of them. *)
Definition incompatible_error (r : result bool) (d1 d2 : string) : Prop :=
  ∃ msg, r = Raise (ValueError msg)
         ∧ (msg = incompatible_message d1 d2 ∨ msg = incompatible_message d2 d1)
         ∧ occurs_in d1 msg ∧ occurs_in d2 msg.

(** [s] holds the character [c] once and only once. *)
Definition exactly_one (c : ascii) (s : string) : Prop :=
  ∃ d r, s = d +:+ String c r ∧ free_of c d ∧ free_of c r.

(** Characters [repr] shows as they are whatever the quote. *)
Definition plain_char (c : ascii) : Prop :=
  (32 ≤ ord c)%N ∧ (ord c < 127)%N ∧ c ≠ squote ∧ c ≠ backslash.

Definition plain (s : string) : Prop :=
  Forall plain_char (list_ascii_of_string s).

(** The first position at which two tuples differ, if they differ before
    one of them ends. *)
Fixpoint first_difference (v w : list int_or_str)
  : option (int_or_str * int_or_str) :=
  match v, w with
  | x :: v', y :: w' =>
      if decide (x = y) then first_difference v' w' else Some (x, y)
  | _, _ => None
  end.

Definition same_kind (a b : int_or_str) : bool :=
  match a, b with
  | PyInt _, PyInt _ => true
  | PyStr _, PyStr _ => true
  | _, _ => false
  end.

(** Two version tuples can be ordered when they do not first differ at
    an integer against a string. *)
Definition orderable (v w : list int_or_str) : bool :=
  match first_difference v w with
  | Some (x, y) => same_kind x y
  | None => true
  end.

(** [t] stands in [s] between white space (or the ends of [s]). *)
Definition ends_blank (pre : string) : Prop :=
  pre = EmptyString
  ∨ ∃ p c, pre = p +:+ String c EmptyString ∧ Py_UNICODE_ISSPACE c = true.

Definition starts_blank (post : string) : Prop :=
  post = EmptyString
  ∨ ∃ c p, post = String c p ∧ Py_UNICODE_ISSPACE c = true.

Definition whitespace_token (t s : string) : Prop :=
  ∃ pre post, s = pre +:+ t +:+ post ∧ ends_blank pre ∧ starts_blank post.

(** Series made of numbers: every piece between the dots is a non-empty
    run of the digits 0-9, read in base ten. *)
Definition is_digit (c : ascii) : bool :=
  ((48 <=? ord c) && (ord c <=? 57))%N.

Fixpoint read_decimal (acc : N) (t : string) : option N :=
  match t with
  | EmptyString => Some acc
  | String c t' =>
      if is_digit c then read_decimal (10 * acc + (ord c - 48))%N t' else None
  end.

Definition numeric_component (t : string) : option N :=
  match t with
  | EmptyString => None
  | String _ _ => read_decimal 0%N t
  end.

Definition numeric_series (s : string) : option (list N) :=
  mapM numeric_component (split "." s).

(** Every piece of the series between the dots is short enough for
    [int] to convert it. *)
Definition within_digit_cap (s : string) : bool :=
  forallb (λ t, (N.of_nat (String.length t) <=? max_str_digits)%N)
    (split "." s).

Fixpoint all_digits (t : string) : bool :=
  match t with
  | EmptyString => true
  | String c t' => is_digit c && all_digits t'
  end.

(** The text made of [n] times the character [c]. *)
Definition repeated (n : N) (c : ascii) : string :=
  N.iter n (String c) EmptyString.

(** The order of two series of numbers, component by component; a series
    that stops first comes first. *)
Fixpoint numerically_before (v w : list N) : Prop :=
  match v, w with
  | _, [] => False
  | [], _ :: _ => True
  | x :: v', y :: w' => (x < y)%N ∨ (x = y ∧ numerically_before v' w')
  end.

(** The Ubuntu releases from 6.06 to 24.10. *)
Definition known_ubuntu_series : list string :=
  [ "6.06"; "6.10"; "7.04"; "7.10"; "8.04"; "8.10"; "9.04"; "9.10";
    "10.04"; "10.10"; "11.04"; "11.10"; "12.04"; "12.10"; "13.04"; "13.10";
    "14.04"; "14.10"; "15.04"; "15.10"; "16.04"; "16.10"; "17.04"; "17.10";
    "18.04"; "18.10"; "19.04"; "19.10"; "20.04"; "20.10"; "21.04"; "21.10";
    "22.04"; "22.10"; "23.04"; "23.10"; "24.04"; "24.10" ].

Definition ubuntu (series : string) : DistroBase :=
  {| distribution := "ubuntu"; series := series |}.

(** [a] compares as the smaller of two bases, by all five operators. *)
Definition compares_smaller (a b : DistroBase) : Prop :=
  base_cmp Py_LT a (IsDistroBase b) = Ok true
  ∧ base_cmp Py_LE a (IsDistroBase b) = Ok true
  ∧ base_cmp Py_GT b (IsDistroBase a) = Ok true
  ∧ base_cmp Py_GE b (IsDistroBase a) = Ok true
  ∧ base_ne a (IsDistroBase b) = Ok true
  ∧ base_ne b (IsDistroBase a) = Ok true.

(** Words: text without white space, the first word of a text and what
    follows it. *)
Fixpoint no_space (t : string) : Prop :=
  match t with
  | EmptyString => True
  | String c t' => Py_UNICODE_ISSPACE c = false ∧ no_space t'
  end.

Fixpoint word_prefix (s : string) : string :=
  match s with
  | EmptyString => EmptyString
  | String c s' =>
      if Py_UNICODE_ISSPACE c then EmptyString else String c (word_prefix s')
  end.

Fixpoint word_rest (s : string) : string :=
  match s with
  | EmptyString => EmptyString
  | String c s' => if Py_UNICODE_ISSPACE c then s else word_rest s'
  end.

(** The relation that holds exactly when [op] does not. *)
Definition negated (op : cmpop) : cmpop :=
  match op with
  | Py_LT => Py_GE
  | Py_LE => Py_GT
  | Py_GT => Py_LE
  | Py_GE => Py_LT
  end.

(** What [op] answers on two equal tuples. *)
Definition holds_on_equal (op : cmpop) : bool :=
  match op with
  | Py_LE | Py_GE => true
  | Py_LT | Py_GT => false
  end.

(** ** Text *)

Lemma append_cons (c : ascii) (s t : string) :
  String c s +:+ t = String c (s +:+ t).
Proof. reflexivity. Qed.

Lemma append_empty_l (s : string) : EmptyString +:+ s = s.
Proof. reflexivity. Qed.

Lemma append_empty_r (s : string) : s +:+ EmptyString = s.
Proof.
  induction s as [|c s IH]; [reflexivity|]. now rewrite append_cons, IH.
Qed.

Lemma append_assoc (a b c : string) : (a +:+ b) +:+ c = a +:+ (b +:+ c).
Proof.
  induction a as [|x a IH]; [reflexivity|]. now rewrite !append_cons, IH.
Qed.

Lemma free_of_cons (sep c : ascii) (s : string) :
  free_of sep (String c s) ↔ c ≠ sep ∧ free_of sep s.
Proof.
  unfold free_of; simpl. rewrite not_elem_of_cons. intuition congruence.
Qed.

Lemma free_of_empty (sep : ascii) : free_of sep EmptyString.
Proof. unfold free_of; simpl. apply not_elem_of_nil. Qed.

(** ** [str.split] with a separator *)

Lemma split_nonempty (sep : ascii) (s : string) : split sep s ≠ [].
Proof.
  destruct s as [|c s]; simpl; [discriminate|].
  destruct (Ascii.eqb c sep); [discriminate|].
  destruct (split sep s); discriminate.
Qed.

Lemma concat_split (sep : ascii) (s : string) :
  String.concat (String sep EmptyString) (split sep s) = s.
Proof.
  induction s as [|c s IH]; simpl; [reflexivity|].
  destruct (Ascii.eqb_spec c sep) as [->|Hne].
  - pose proof (split_nonempty sep s) as Hn.
    destruct (split sep s) as [|t ts]; [contradiction|].
    simpl in *. destruct ts; now rewrite <- IH.
  - pose proof (split_nonempty sep s) as Hn.
    destruct (split sep s) as [|t ts]; [contradiction|].
    simpl in *. destruct ts; now rewrite <- IH.
Qed.

Lemma split_free (sep : ascii) (s : string) : Forall (free_of sep) (split sep s).
Proof.
  induction s as [|c s IH]; simpl.
  - constructor; [apply free_of_empty | constructor].
  - destruct (Ascii.eqb_spec c sep) as [->|Hne].
    + constructor; [apply free_of_empty | exact IH].
    + destruct (split sep s) as [|t ts].
      * constructor; [|constructor]. apply free_of_cons; split; [exact Hne | apply free_of_empty].
      * inversion IH; subst. constructor; [|assumption].
        apply free_of_cons; split; assumption.
Qed.

Lemma split_free_piece (sep : ascii) (t : string) :
  free_of sep t → split sep t = [t].
Proof.
  induction t as [|c t IH]; simpl; intros Hf; [reflexivity|].
  apply free_of_cons in Hf as [Hne Hf].
  destruct (Ascii.eqb_spec c sep) as [->|_]; [contradiction|].
  now rewrite (IH Hf).
Qed.

Lemma split_piece_sep (sep : ascii) (t rest : string) :
  free_of sep t → split sep (t +:+ String sep rest) = t :: split sep rest.
Proof.
  induction t as [|c t IH]; intros Hf.
  - rewrite append_empty_l. simpl. now rewrite Ascii.eqb_refl.
  - apply free_of_cons in Hf as [Hne Hf]. rewrite append_cons. simpl.
    destruct (Ascii.eqb_spec c sep) as [->|_]; [contradiction|].
    now rewrite (IH Hf).
Qed.

(** The pieces are determined by the text: [split] is the only way to
    cut it. *)
Lemma tokens_of_split (sep : ascii) (s : string) : tokens_of sep s (split sep s).
Proof.
  split; [apply split_nonempty|]. split; [apply concat_split | apply split_free].
Qed.

Lemma tokens_of_unique (sep : ascii) (s : string) (ts : list string) :
  tokens_of sep s ts → ts = split sep s.
Proof.
  intros (Hne & <- & Hfree).
  induction ts as [|t ts IH]; [contradiction|].
  inversion Hfree as [|? ? Ht Hts]; subst.
  destruct ts as [|t2 ts].
  - simpl. symmetry. now apply split_free_piece.
  - change (String.concat (String sep EmptyString) (t :: t2 :: ts))
      with (t +:+ String sep (String.concat (String sep EmptyString) (t2 :: ts))).
    rewrite split_piece_sep by assumption.
    f_equal. apply IH; [discriminate | assumption].
Qed.

(** ** The conversion loop *)

Lemma convert_parts_coerce (todo : list string) :
  ∀ (done : list int_or_str) (n : nat),
    length todo ≤ n →
    convert_parts n (length done) (done ++ (PyStr <$> todo))
    = done ++ (coerce <$> todo).
Proof.
  induction todo as [|t todo IH]; intros done n Hn.
  - simpl. destruct n as [|n]; simpl; [reflexivity|].
    rewrite lookup_ge_None_2; [reflexivity|]. rewrite app_nil_r. lia.
  - destruct n as [|n]; [simpl in Hn; lia|].
    simpl in Hn. cbn [convert_parts fmap list_fmap].
    rewrite list_lookup_middle by reflexivity.
    cbn [int_of_part]. unfold coerce at 1.
    destruct (int t) as [z|].
    + pose proof (insert_app_r done (PyStr t :: (PyStr <$> todo)) 0 (PyInt z)) as Hins.
      rewrite Nat.add_0_r in Hins. cbn [insert list_insert] in Hins. rewrite Hins.
      specialize (IH (done ++ [PyInt z]) n ltac:(lia)).
      rewrite length_app in IH. simpl in IH.
      replace (length done + 1) with (S (length done)) in IH by lia.
      rewrite <- !app_assoc in IH. exact IH.
    + specialize (IH (done ++ [PyStr t]) n ltac:(lia)).
      rewrite length_app in IH. simpl in IH.
      replace (length done + 1) with (S (length done)) in IH by lia.
      rewrite <- !app_assoc in IH. exact IH.
Qed.

Lemma _get_version_tuple_coerce (s : string) :
  _get_version_tuple s = coerce <$> split "." s.
Proof.
  unfold _get_version_tuple.
  apply (convert_parts_coerce (split "." s) [] _).
  now rewrite length_fmap.
Qed.

(** ** The compatibility check *)

Ltac run := unfold mbind, result_bind, mret, result_ret; cbn.

Lemma method_ordering (op : cmpop) : method op = ordering op.
Proof. destruct op; reflexivity. Qed.

Lemma occurs_in_message_left (a b : string) :
  occurs_in a (incompatible_message a b).
Proof.
  unfold incompatible_message.
  eexists "Different distributions (", _. reflexivity.
Qed.

Lemma occurs_in_message_right (a b : string) :
  occurs_in b (incompatible_message a b).
Proof.
  unfold incompatible_message.
  exists ("Different distributions (" +:+ a +:+ " and "),
         ") do not have comparable versions.".
  now rewrite !append_assoc.
Qed.

Lemma ensure_raises (b : DistroBase) (o : operand) (d : string) :
  operand_distribution o = Some d →
  distribution b ≠ d →
  _ensure_bases_comparable b o
  = Raise (ValueError (incompatible_message (distribution b) d)).
Proof.
  intros Hd Hne. unfold _ensure_bases_comparable.
  destruct o as [a|name ver|items|i]; simpl in Hd; try discriminate.
  - injection Hd as <-. run. now rewrite bool_decide_eq_true_2.
  - injection Hd as <-. run. now rewrite bool_decide_eq_true_2.
  - unfold getitem. rewrite Hd. run. now rewrite bool_decide_eq_true_2.
Qed.

Lemma ensure_passes (b : DistroBase) (o : operand) :
  operand_distribution o = Some (distribution b) →
  _ensure_bases_comparable b o = Ok tt.
Proof.
  intros Hd. unfold _ensure_bases_comparable.
  destruct o as [a|name ver|items|i]; simpl in Hd; try discriminate.
  - injection Hd as Hd. run. rewrite Hd. now rewrite bool_decide_eq_false_2 by auto.
  - injection Hd as Hd. run. rewrite Hd. now rewrite bool_decide_eq_false_2 by auto.
  - unfold getitem. rewrite Hd. run. now rewrite bool_decide_eq_false_2 by auto.
Qed.

Lemma ordering_raises (op : cmpop) (b : DistroBase) (o : operand) (d : string) :
  operand_distribution o = Some d →
  distribution b ≠ d →
  ordering op b o = Raise (ValueError (incompatible_message (distribution b) d)).
Proof.
  intros Hd Hne. unfold ordering. now rewrite (ensure_raises b o d Hd Hne).
Qed.

Lemma string_eqb_false (x y : string) : x ≠ y → String.eqb x y = false.
Proof. apply String.eqb_neq. Qed.

Lemma base_eq_other_distribution (b : DistroBase) (o : operand) (d : string) :
  operand_distribution o = Some d →
  distribution b ≠ d →
  base_eq b o = Ok false.
Proof.
  intros Hd Hne. unfold base_eq, __eq__.
  destruct o as [a|name ver|items|i]; simpl in Hd; try discriminate.
  - injection Hd as <-. run. now rewrite string_eqb_false.
  - injection Hd as <-. run. now rewrite string_eqb_false.
  - unfold getitem. rewrite Hd. run. now rewrite string_eqb_false.
Qed.

(** C1. Whenever the distribution of the other operand differs from the
    one of the base, each of [<], [<=], [>], [>=] raises the error about
    incomparable distributions, with both identifiers in its message,
    whichever side the base stands on; [==] answers false on both sides
    and raises nothing. *)
Theorem C1_other_distribution_raises
    (op : cmpop) (b : DistroBase) (o : operand) (d : string) :
  operand_distribution o = Some d →
  distribution b ≠ d →
  incompatible_error (base_cmp op b o) (distribution b) d
  ∧ incompatible_error (cmp_base op o b) (distribution b) d
  ∧ base_eq b o = Ok false
  ∧ eq_base o b = Ok false.
Proof.
  intros Hd Hne.
  assert (Hleft : incompatible_error
            (Raise (ValueError (incompatible_message (distribution b) d)))
            (distribution b) d).
  { eexists; split; [reflexivity|]. split; [now left|].
    split; [apply occurs_in_message_left | apply occurs_in_message_right]. }
  assert (Hright : incompatible_error
            (Raise (ValueError (incompatible_message d (distribution b))))
            (distribution b) d).
  { eexists; split; [reflexivity|]. split; [now right|].
    split; [apply occurs_in_message_right | apply occurs_in_message_left]. }
  split; [|split; [|split]].
  - unfold base_cmp. rewrite method_ordering.
    now rewrite (ordering_raises op b o d Hd Hne).
  - unfold cmp_base. rewrite !method_ordering.
    destruct o as [a|name ver|items|i].
    + simpl in Hd. injection Hd as <-.
      rewrite (ordering_raises op a (IsDistroBase b) (distribution b)); auto.
    + now rewrite (ordering_raises _ b _ d Hd Hne).
    + now rewrite (ordering_raises _ b _ d Hd Hne).
    + now rewrite (ordering_raises _ b _ d Hd Hne).
  - now apply base_eq_other_distribution with d.
  - unfold eq_base. destruct o as [a|name ver|items|i];
      try now apply base_eq_other_distribution with d.
    simpl in Hd. injection Hd as <-.
    apply base_eq_other_distribution with (distribution b); auto.
Qed.

Lemma C1_other_distribution_raises_witness :
  operand_distribution (IsTuple ["debian"; "12"]) = Some "debian"
  ∧ distribution (ubuntu "22.04") ≠ "debian"
  ∧ incompatible_error
      (base_cmp Py_LT (ubuntu "22.04") (IsTuple ["debian"; "12"])) "ubuntu" "debian"
  ∧ incompatible_error
      (cmp_base Py_LT (IsTuple ["debian"; "12"]) (ubuntu "22.04")) "ubuntu" "debian".
Proof.
  assert (H1 : operand_distribution (IsTuple ["debian"; "12"]) = Some "debian")
    by reflexivity.
  assert (H2 : distribution (ubuntu "22.04") ≠ "debian") by (simpl; discriminate).
  split; [exact H1|]. split; [exact H2|].
  destruct (C1_other_distribution_raises Py_LT (ubuntu "22.04")
              (IsTuple ["debian"; "12"]) "debian" H1 H2) as (Ha & Hb & _).
  split; [exact Ha | exact Hb].
Defined.

(** ** The ordering methods *)

Lemma get_version_operand (o : operand) (v : string) :
  operand_version o = Some v → _get_version o = Ok v.
Proof.
  destruct o as [a|name ver|items|i]; simpl; try congruence.
  unfold getitem. now intros ->.
Qed.

Lemma ordering_compares (op : cmpop) (b : DistroBase) (o : operand) (v : string) :
  operand_distribution o = Some (distribution b) →
  operand_version o = Some v →
  ordering op b o
  = tuplerichcompare op (_get_version_tuple (series b)) (_get_version_tuple v).
Proof.
  intros Hd Hv. unfold ordering.
  rewrite (ensure_passes b o Hd), (get_version_operand o v Hv). reflexivity.
Qed.

(** C3. When the other operand has the distribution of the base, each
    ordering method takes the version string of the operand by its shape
    ([series], [version] or the second element), turns it and [series]
    of the base into version tuples, and returns what the comparison of
    the two tuples under its relation gives. *)
Theorem C3_ordering_compares_version_tuples
    (b : DistroBase) (o : operand) (v : string) :
  operand_distribution o = Some (distribution b) →
  operand_version o = Some v →
  __lt__ b o = tuplerichcompare Py_LT (_get_version_tuple (series b)) (_get_version_tuple v)
  ∧ __le__ b o = tuplerichcompare Py_LE (_get_version_tuple (series b)) (_get_version_tuple v)
  ∧ __gt__ b o = tuplerichcompare Py_GT (_get_version_tuple (series b)) (_get_version_tuple v)
  ∧ __ge__ b o = tuplerichcompare Py_GE (_get_version_tuple (series b)) (_get_version_tuple v)
  ∧ _get_version o = Ok v.
Proof.
  intros Hd Hv.
  change (__lt__ b o) with (method Py_LT b o).
  change (__le__ b o) with (method Py_LE b o).
  change (__gt__ b o) with (method Py_GT b o).
  change (__ge__ b o) with (method Py_GE b o).
  rewrite !method_ordering, !(ordering_compares _ b o v Hd Hv).
  repeat split. now apply get_version_operand.
Qed.

Lemma C3_ordering_compares_version_tuples_witness :
  operand_distribution (IsBaseName "ubuntu" "24.04") = Some (distribution (ubuntu "18.04"))
  ∧ operand_version (IsBaseName "ubuntu" "24.04") = Some "24.04"
  ∧ __lt__ (ubuntu "18.04") (IsBaseName "ubuntu" "24.04")
    = tuplerichcompare Py_LT (_get_version_tuple "18.04") (_get_version_tuple "24.04").
Proof.
  assert (H1 : operand_distribution (IsBaseName "ubuntu" "24.04")
               = Some (distribution (ubuntu "18.04"))) by reflexivity.
  assert (H2 : operand_version (IsBaseName "ubuntu" "24.04") = Some "24.04")
    by reflexivity.
  split; [exact H1|]. split; [exact H2|].
  exact (proj1 (C3_ordering_compares_version_tuples (ubuntu "18.04")
                  (IsBaseName "ubuntu" "24.04") "24.04" H1 H2)).
Defined.

(** ** Equality *)

Lemma string_eqb_decide (x y : string) : String.eqb x y = bool_decide (x = y).
Proof.
  destruct (String.eqb_spec x y) as [->|Hne].
  - now rewrite bool_decide_eq_true_2.
  - now rewrite bool_decide_eq_false_2.
Qed.

Lemma eqb_pair_decide (x y x' y' : string) :
  String.eqb x x' && String.eqb y y' = bool_decide (x = x' ∧ y = y').
Proof.
  rewrite !string_eqb_decide. symmetry. apply bool_decide_and.
Qed.

Lemma base_eq_pair (b : DistroBase) (d v : string) (rest : list string) :
  base_eq b (IsTuple (d :: v :: rest))
  = Ok (bool_decide (distribution b = d ∧ series b = v)).
Proof.
  unfold base_eq, __eq__, getitem. run.
  rewrite <- eqb_pair_decide.
  destruct (String.eqb (distribution b) d); reflexivity.
Qed.

(** C5. A base equals itself; it equals another base exactly when both
    fields are the same strings, an object with [name] and [version]
    exactly when these are its [distribution] and [series], and a pair
    exactly when its two elements are; for any other object [__eq__]
    returns [NotImplemented] and the run time settles the comparison,
    from either side, as false. *)
Theorem C5_equality (b : DistroBase) :
  base_eq b (IsDistroBase b) = Ok true
  ∧ (∀ b', base_eq b (IsDistroBase b')
           = Ok (bool_decide (distribution b = distribution b' ∧ series b = series b')))
  ∧ (∀ b', base_eq b (IsDistroBase b') = Ok (bool_decide (b = b')))
  ∧ (∀ name version, base_eq b (IsBaseName name version)
           = Ok (bool_decide (distribution b = name ∧ series b = version)))
  ∧ (∀ d v, base_eq b (IsTuple [d; v])
           = Ok (bool_decide (distribution b = d ∧ series b = v)))
  ∧ (∀ i, __eq__ b (IsObject i) = Ok NotImplemented
          ∧ base_eq b (IsObject i) = Ok false
          ∧ eq_base (IsObject i) b = Ok false)
  ∧ base_eq (ubuntu "24.04")
      (IsDistroBase {| distribution := "Ubuntu"; series := "24.04" |}) = Ok false.
Proof.
  assert (Hfields : ∀ b', base_eq b (IsDistroBase b')
           = Ok (bool_decide (distribution b = distribution b' ∧ series b = series b'))).
  { intros b'. unfold base_eq, __eq__. run. now rewrite eqb_pair_decide. }
  split; [|split; [|split; [|split; [|split; [|split]]]]].
  - rewrite Hfields. now rewrite bool_decide_eq_true_2.
  - exact Hfields.
  - intros b'. rewrite Hfields. f_equal. apply bool_decide_ext.
    destruct b as [d v], b' as [d' v']; simpl. split.
    + now intros [-> ->].
    + intros H; injection H as -> ->. now split.
  - intros name version. unfold base_eq, __eq__. run. now rewrite eqb_pair_decide.
  - intros d v. apply base_eq_pair.
  - intros i. repeat split.
  - reflexivity.
Qed.

(** C9. Equality with a tuple looks at its first two elements only: a
    tuple that starts with the distribution and the series of the base
    equals it whatever follows, and more generally the elements after
    the second never change the answer. *)
Theorem C9_tuple_equality_first_two (b : DistroBase) (rest : list string) :
  base_eq b (IsTuple (distribution b :: series b :: rest)) = Ok true
  ∧ (∀ d v, base_eq b (IsTuple (d :: v :: rest)) = base_eq b (IsTuple [d; v])).
Proof.
  split.
  - rewrite base_eq_pair. now rewrite bool_decide_eq_true_2.
  - intros d v. now rewrite !base_eq_pair.
Qed.

(** C10. The series 20.04 and 20.4 of one distribution have the same
    version tuple: each base is [<=] the other while [==] is false, so
    [<=] is not antisymmetric with respect to [==]. *)
Theorem C10_le_not_antisymmetric (d : string) :
  let a := {| distribution := d; series := "20.04" |} in
  let b := {| distribution := d; series := "20.4" |} in
  base_cmp Py_LE a (IsDistroBase b) = Ok true
  ∧ base_cmp Py_LE b (IsDistroBase a) = Ok true
  ∧ base_eq a (IsDistroBase b) = Ok false
  ∧ base_eq b (IsDistroBase a) = Ok false
  ∧ _get_version_tuple "20.04" = [PyInt 20; PyInt 4]
  ∧ _get_version_tuple "20.4" = [PyInt 20; PyInt 4].
Proof.
  intros a b. unfold base_cmp. rewrite method_ordering.
  rewrite (ordering_compares Py_LE a (IsDistroBase b) "20.4") by reflexivity.
  rewrite (ordering_compares Py_LE b (IsDistroBase a) "20.04") by reflexivity.
  repeat split.
  - unfold base_eq, __eq__. run. now rewrite String.eqb_refl.
  - unfold base_eq, __eq__. run. now rewrite String.eqb_refl.
Qed.

(** ** The version tuple *)

(** C2. The version tuple of [s] is made from the pieces of [s] between
    its dots, all of them and in their order: a piece that [int] reads
    becomes that integer, any other piece stays the string it is. *)
Theorem C2_version_tuple (s : string) :
  (∃ ts, tokens_of "." s ts
         ∧ (∀ ts', tokens_of "." s ts' → ts' = ts)
         ∧ _get_version_tuple s = coerce <$> ts
         ∧ length (_get_version_tuple s) = length ts)
  ∧ _get_version_tuple "7" = [PyInt 7]
  ∧ _get_version_tuple "20.04" = [PyInt 20; PyInt 4]
  ∧ _get_version_tuple "10-buster" = [PyStr "10-buster"]
  ∧ _get_version_tuple EmptyString = [PyStr EmptyString].
Proof.
  split; [|repeat split].
  exists (split "." s). split; [apply tokens_of_split|]. split; [|split].
  - intros ts' H. now apply tokens_of_unique.
  - apply _get_version_tuple_coerce.
  - rewrite _get_version_tuple_coerce. apply length_fmap.
Qed.

(** ** Parsing a base *)

Lemma count_free (c : ascii) (s : string) : count c s = 0 ↔ free_of c s.
Proof.
  induction s as [|x s IH]; simpl.
  - split; [intros _; apply free_of_empty | reflexivity].
  - rewrite free_of_cons, <- IH.
    destruct (Ascii.eqb_spec x c) as [->|Hne]; simpl; split.
    + discriminate.
    + intros [H _]; now contradiction H.
    + now split.
    + now intros [_ H].
Qed.

Lemma count_append (c : ascii) (a b : string) :
  count c (a +:+ b) = count c a + count c b.
Proof.
  induction a as [|x a IH]; [reflexivity|].
  rewrite append_cons. simpl. rewrite IH. lia.
Qed.

Lemma exactly_one_count (c : ascii) (s : string) :
  exactly_one c s ↔ count c s = 1.
Proof.
  split.
  - intros (d & r & -> & Hd & Hr).
    apply count_free in Hd, Hr.
    rewrite count_append. simpl. rewrite Ascii.eqb_refl, Hd, Hr. reflexivity.
  - induction s as [|x s IH]; simpl; [discriminate|].
    destruct (Ascii.eqb_spec x c) as [->|Hne]; simpl; intros H.
    + exists EmptyString, s. split; [reflexivity|].
      split; [apply free_of_empty | apply count_free; lia].
    + destruct (IH H) as (d & r & -> & Hd & Hr).
      exists (String x d), r. split; [reflexivity|].
      split; [apply free_of_cons; now split | assumption].
Qed.

Lemma find_split_first (c : ascii) (d r : string) :
  free_of c d → find_split c (d +:+ String c r) = Some (d, r).
Proof.
  induction d as [|x d IH]; intros Hd.
  - rewrite append_empty_l. simpl. now rewrite Ascii.eqb_refl.
  - apply free_of_cons in Hd as [Hne Hd]. rewrite append_cons. simpl.
    destruct (Ascii.eqb_spec x c) as [->|_]; [contradiction|].
    now rewrite (IH Hd).
Qed.

Lemma from_str_parts (d r : string) :
  free_of "@" d → free_of "@" r →
  from_str (d +:+ String "@" r) = Ok {| distribution := d; series := r |}.
Proof.
  intros Hd Hr. unfold from_str.
  assert (Hc : count "@" (d +:+ String "@" r) = 1).
  { apply exactly_one_count. now exists d, r. }
  rewrite bool_decide_eq_false_2 by (rewrite Hc; auto).
  unfold partition. now rewrite (find_split_first "@" d r Hd).
Qed.

Lemma from_str_malformed (s : string) :
  ¬ exactly_one "@" s → from_str s = Raise (ValueError (malformed_message s)).
Proof.
  intros H. unfold from_str.
  rewrite bool_decide_eq_true_2; [reflexivity|].
  intros Hc. apply H. now apply exactly_one_count.
Qed.

Lemma repr_char_plain (c : ascii) :
  plain_char c → repr_char squote c = String c EmptyString.
Proof.
  intros (Hlo & Hhi & Hq & Hb). unfold repr_char.
  apply Ascii.eqb_neq in Hq, Hb. rewrite Hq, Hb. simpl.
  destruct (N.eqb_spec (ord c) 9); [lia|].
  destruct (N.eqb_spec (ord c) 10); [lia|].
  destruct (N.eqb_spec (ord c) 13); [lia|].
  destruct (N.ltb_spec (ord c) 32); [lia|].
  destruct (N.eqb_spec (ord c) 127); [lia|]. simpl.
  destruct (N.ltb_spec (ord c) 127); [reflexivity | lia].
Qed.

Lemma repr_plain (s : string) :
  plain s → repr s = String squote (s +:+ String squote EmptyString).
Proof.
  intros Hs. unfold repr.
  assert (Hbody : repr_body squote s = s ∧ contains_char squote s = false).
  { unfold plain in Hs. induction s as [|c s IH]; simpl; [now split|].
    simpl in Hs. inversion Hs as [|? ? Hc Hs']; subst.
    destruct (IH Hs') as [IH1 IH2].
    rewrite (repr_char_plain c Hc), IH1, IH2.
    destruct Hc as (_ & _ & Hq & _). apply Ascii.eqb_neq in Hq. rewrite Hq.
    now split. }
  destruct Hbody as [Hb Hc]. rewrite Hc. cbn [andb]. now rewrite Hb.
Qed.

Lemma malformed_message_shape (s : string) :
  occurs_in "<distribution>@<series>" (malformed_message s).
Proof.
  unfold malformed_message.
  exists ("Invalid base string " +:+ repr s +:+ ". Format should be '"), "'".
  now rewrite !append_assoc.
Qed.

Lemma malformed_message_repr (s : string) :
  occurs_in (repr s) (malformed_message s).
Proof.
  unfold malformed_message. eexists "Invalid base string ", _. reflexivity.
Qed.

Lemma malformed_message_plain (s : string) :
  plain s → occurs_in s (malformed_message s).
Proof.
  intros Hs. unfold malformed_message. rewrite (repr_plain s Hs).
  exists "Invalid base string '", "'. Format should be '<distribution>@<series>'".
  rewrite !append_cons, !append_assoc. reflexivity.
Qed.

(** C4. [from_str] succeeds exactly on the strings with one [@]; it
    then returns the base made of the text before and the text after the
    [@], unchanged.  On any other string it raises the error whose
    message names the expected ['<distribution>@<series>'] and shows the
    string, as [repr] writes it (the string itself, between quotes, when
    it has only plain characters). *)
Theorem C4_from_str (s : string) :
  ((∃ b, from_str s = Ok b) ↔ exactly_one "@" s)
  ∧ (∀ d r, s = d +:+ String "@" r → free_of "@" d → free_of "@" r →
            from_str s = Ok {| distribution := d; series := r |})
  ∧ (¬ exactly_one "@" s →
       from_str s = Raise (ValueError (malformed_message s)))
  ∧ occurs_in "<distribution>@<series>" (malformed_message s)
  ∧ occurs_in (repr s) (malformed_message s)
  ∧ (plain s → occurs_in s (malformed_message s))
  ∧ from_str "ubuntu@24.04" = Ok {| distribution := "ubuntu"; series := "24.04" |}
  ∧ from_str "bad-string" = Raise (ValueError (malformed_message "bad-string"))
  ∧ from_str "a@b@c" = Raise (ValueError (malformed_message "a@b@c")).
Proof.
  split; [|split; [|split; [|split; [|split; [|split; [|repeat split]]]]]].
  - split.
    + intros [b Hb]. destruct (decide (count "@" s = 1)) as [Hc|Hc].
      * now apply exactly_one_count.
      * unfold from_str in Hb. rewrite bool_decide_eq_true_2 in Hb by exact Hc.
        discriminate.
    + intros (d & r & -> & Hd & Hr). eexists. now apply from_str_parts.
  - intros d r -> Hd Hr. now apply from_str_parts.
  - apply from_str_malformed.
  - apply malformed_message_shape.
  - apply malformed_message_repr.
  - apply malformed_message_plain.
Qed.

Lemma C4_from_str_witness :
  from_str "debian@12" = Ok {| distribution := "debian"; series := "12" |}
  ∧ from_str "debian" = Raise (ValueError (malformed_message "debian"))
  ∧ occurs_in "debian" (malformed_message "debian").
Proof.
  destruct (C4_from_str "debian@12") as (_ & Hparts & _).
  destruct (C4_from_str "debian") as (_ & _ & Hbad & _ & _ & Hplain & _).
  split; [|split].
  - apply (Hparts "debian" "12"); [reflexivity| |];
      apply count_free; reflexivity.
  - apply Hbad. intros H. apply exactly_one_count in H. discriminate H.
  - apply Hplain. unfold plain. simpl.
    repeat (constructor; [unfold plain_char; cbn; repeat split; (lia || discriminate)|]).
    constructor.
Defined.

(** ** Series of numbers *)

Lemma is_digit_facts (c : ascii) :
  is_digit c = true →
  digit_value c = Some (ord c - 48)%N
  ∧ Py_ISSPACE c = false
  ∧ is_underscore c = false
  ∧ (ord c <? 127)%N = true
  ∧ (ord c =? 43)%N = false
  ∧ (ord c =? 45)%N = false.
Proof.
  intros H. split.
  { unfold digit_value. unfold is_digit in H. now rewrite H. }
  unfold is_digit in H. apply andb_true_iff in H as [Hlo Hhi].
  apply N.leb_le in Hlo, Hhi.
  unfold Py_ISSPACE, is_underscore.
  destruct (N.leb_spec 9 (ord c)), (N.leb_spec (ord c) 13),
    (N.eqb_spec (ord c) 32), (N.eqb_spec (ord c) 95),
    (N.ltb_spec (ord c) 127), (N.eqb_spec (ord c) 43),
    (N.eqb_spec (ord c) 45); simpl; repeat split; lia.
Qed.

Lemma transform_digits (t : string) :
  ∀ acc v, read_decimal acc t = Some v → TransformDecimalAndSpaceToASCII t = t.
Proof.
  induction t as [|c t IH]; intros acc v H; [reflexivity|].
  simpl in H. destruct (is_digit c) eqn:Hc; [|discriminate].
  destruct (is_digit_facts c Hc) as (_ & _ & _ & Hlt & _).
  simpl. rewrite Hlt. now rewrite (IH _ _ H).
Qed.

Lemma scan_digits_decimal (t : string) :
  ∀ digits acc v,
    read_decimal acc t = Some v →
    scan_digits false digits acc t
    = Some ((digits + N.of_nat (String.length t))%N, v, EmptyString).
Proof.
  induction t as [|c t IH]; intros digits acc v H; simpl in H.
  - injection H as ->. cbn [scan_digits String.length].
    now rewrite N.add_0_r.
  - destruct (is_digit c) eqn:Hc; [|discriminate].
    destruct (is_digit_facts c Hc) as (Hd & _).
    cbn [scan_digits]. rewrite Hd, (IH _ _ _ H).
    cbn [String.length]. do 3 f_equal. lia.
Qed.

Lemma long_from_string_base_digits (t : string) (v : N) :
  numeric_component t = Some v →
  (N.of_nat (String.length t) <= max_str_digits)%N →
  long_from_string_base t = Some (v, EmptyString).
Proof.
  destruct t as [|c t]; [discriminate|]. unfold numeric_component.
  intros H Hcap.
  assert (Hc : is_digit c = true).
  { simpl in H. destruct (is_digit c); [reflexivity | discriminate]. }
  destruct (is_digit_facts c Hc) as (_ & _ & Hus & _).
  unfold long_from_string_base. rewrite Hus.
  rewrite (scan_digits_decimal _ _ _ _ H), N.add_0_l.
  cbn [String.length Nat.eqb] in Hcap |- *.
  now rewrite (proj2 (N.ltb_ge _ _) Hcap).
Qed.

Lemma int_numeric_component (t : string) (v : N) :
  numeric_component t = Some v →
  (N.of_nat (String.length t) <= max_str_digits)%N →
  int t = Some (Z.of_N v).
Proof.
  intros H Hcap. pose proof (long_from_string_base_digits t v H Hcap) as Hl.
  destruct t as [|c t]; [discriminate|]. unfold numeric_component in H.
  unfold int. rewrite (transform_digits _ _ _ H).
  assert (Hc : is_digit c = true).
  { simpl in H. destruct (is_digit c); [reflexivity | discriminate]. }
  destruct (is_digit_facts c Hc) as (_ & Hsp & _ & _ & Hplus & Hminus).
  unfold PyLong_FromString. cbn [skip_space]. rewrite Hsp, Hplus, Hminus.
  rewrite Hl. cbn [skip_space].
  f_equal. destruct v; reflexivity.
Qed.

Lemma coerce_numeric (ts : list string) (v : list N) :
  Forall2 (λ t n, numeric_component t = Some n) ts v →
  forallb (λ t, (N.of_nat (String.length t) <=? max_str_digits)%N) ts = true →
  coerce <$> ts = (λ n, PyInt (Z.of_N n)) <$> v.
Proof.
  induction 1 as [|t n ts v Ht _ IH]; [reflexivity|].
  cbn [forallb]. intros Hcap. apply andb_true_iff in Hcap as [Hcap1 Hcap2].
  apply N.leb_le in Hcap1.
  cbn [fmap list_fmap]. unfold coerce at 1.
  rewrite (int_numeric_component t n Ht Hcap1). f_equal. now apply IH.
Qed.

Lemma numeric_version_tuple (s : string) (v : list N) :
  numeric_series s = Some v →
  within_digit_cap s = true →
  _get_version_tuple s = (λ n, PyInt (Z.of_N n)) <$> v.
Proof.
  intros H Hcap. rewrite _get_version_tuple_coerce.
  apply coerce_numeric; [now apply mapM_Some_1 | exact Hcap].
Qed.

Lemma numerically_before_irrefl (v : list N) : ¬ numerically_before v v.
Proof.
  induction v as [|x v IH]; simpl; [tauto|].
  intros [H|[_ H]]; [lia | tauto].
Qed.

Lemma tuplerichcompare_numbers (v : list N) :
  ∀ w, numerically_before v w →
    let tv := (λ n, PyInt (Z.of_N n)) <$> v in
    let tw := (λ n, PyInt (Z.of_N n)) <$> w in
    tuplerichcompare Py_LT tv tw = Ok true
    ∧ tuplerichcompare Py_LE tv tw = Ok true
    ∧ tuplerichcompare Py_GT tw tv = Ok true
    ∧ tuplerichcompare Py_GE tw tv = Ok true.
Proof.
  induction v as [|x v IH]; intros [|y w] H; simpl in H; try contradiction.
  - repeat split.
  - cbn [fmap list_fmap tuplerichcompare item_eq item_richcompare int_richcompare].
    destruct H as [Hlt|[-> H]].
    + rewrite (proj2 (Z.eqb_neq (Z.of_N x) (Z.of_N y))) by lia.
      rewrite (proj2 (Z.eqb_neq (Z.of_N y) (Z.of_N x))) by lia.
      rewrite (proj2 (Z.ltb_lt (Z.of_N x) (Z.of_N y))) by lia.
      rewrite (proj2 (Z.leb_le (Z.of_N x) (Z.of_N y))) by lia.
      repeat split.
    + rewrite Z.eqb_refl. exact (IH w H).
Qed.

Lemma numeric_order (a b : DistroBase) (va vb : list N) :
  distribution a = distribution b →
  numeric_series (series a) = Some va →
  numeric_series (series b) = Some vb →
  within_digit_cap (series a) = true →
  within_digit_cap (series b) = true →
  numerically_before va vb →
  compares_smaller a b.
Proof.
  intros Hd Ha Hb Hca Hcb Hlt. unfold compares_smaller, base_cmp.
  rewrite !method_ordering.
  rewrite !(ordering_compares _ a (IsDistroBase b) (series b)) by (simpl; congruence).
  rewrite !(ordering_compares _ b (IsDistroBase a) (series a)) by (simpl; congruence).
  rewrite (numeric_version_tuple _ _ Ha Hca), (numeric_version_tuple _ _ Hb Hcb).
  destruct (tuplerichcompare_numbers va vb Hlt) as (H1 & H2 & H3 & H4).
  split; [exact H1|]. split; [exact H2|]. split; [exact H3|]. split; [exact H4|].
  assert (Hne : series a ≠ series b).
  { intros Heq. rewrite Heq in Ha. rewrite Ha in Hb. injection Hb as ->.
    now apply (numerically_before_irrefl vb). }
  unfold base_ne, __eq__. run.
  rewrite (string_eqb_false (series a) (series b)) by exact Hne.
  rewrite (string_eqb_false (series b) (series a)) by auto.
  rewrite !andb_false_r. now split.
Qed.

(** C8. Two bases of one distribution whose series are made of numbers
    that [int] converts (no more than [max_str_digits] digits each), the
    first before the second component by component: the first is [<]
    and [<=] the second, the second [>] and [>=] the first, and they are
    [!=].  So 4.10 compares smaller than every Ubuntu release from 6.06
    to 24.10, though as plain text 4.10 sorts after 24.10. *)
Theorem C8_numeric_order (a b : DistroBase) (va vb : list N) :
  distribution a = distribution b →
  numeric_series (series a) = Some va →
  numeric_series (series b) = Some vb →
  within_digit_cap (series a) = true →
  within_digit_cap (series b) = true →
  numerically_before va vb →
  compares_smaller a b
  ∧ Forall (λ s, compares_smaller (ubuntu "4.10") (ubuntu s)) known_ubuntu_series
  ∧ String.ltb "4.10" "24.10" = false.
Proof.
  intros Hd Ha Hb Hca Hcb Hlt. split; [now apply numeric_order with va vb|].
  split; [|reflexivity].
  unfold known_ubuntu_series.
  repeat (apply Forall_cons; split;
          [eapply numeric_order;
           [reflexivity | reflexivity | reflexivity
            | reflexivity | reflexivity | cbn; lia]|]).
  apply Forall_nil. exact I.
Qed.

Lemma C8_numeric_order_witness :
  distribution (ubuntu "18.04") = distribution (ubuntu "24.04")
  ∧ numeric_series "18.04" = Some [18; 4]%N
  ∧ numeric_series "24.04" = Some [24; 4]%N
  ∧ within_digit_cap "18.04" = true
  ∧ within_digit_cap "24.04" = true
  ∧ numerically_before [18; 4]%N [24; 4]%N
  ∧ compares_smaller (ubuntu "18.04") (ubuntu "24.04").
Proof.
  assert (H1 : distribution (ubuntu "18.04") = distribution (ubuntu "24.04"))
    by reflexivity.
  assert (H2 : numeric_series (series (ubuntu "18.04")) = Some [18; 4]%N)
    by reflexivity.
  assert (H3 : numeric_series (series (ubuntu "24.04")) = Some [24; 4]%N)
    by reflexivity.
  assert (H4 : within_digit_cap (series (ubuntu "18.04")) = true) by reflexivity.
  assert (H5 : within_digit_cap (series (ubuntu "24.04")) = true) by reflexivity.
  assert (H6 : numerically_before [18; 4]%N [24; 4]%N) by (simpl; lia).
  split; [exact H1|]. split; [exact H2|]. split; [exact H3|].
  split; [exact H4|]. split; [exact H5|]. split; [exact H6|].
  exact (proj1 (C8_numeric_order (ubuntu "18.04") (ubuntu "24.04")
                  [18; 4]%N [24; 4]%N H1 H2 H3 H4 H5 H6)).
Defined.

Lemma read_decimal_all_digits (t : string) :
  ∀ acc, all_digits t = true →
         ∃ v, read_decimal acc t = Some v ∧ (acc <= v)%N.
Proof.
  induction t as [|c t IH]; intros acc H; simpl in *.
  - exists acc. split; [reflexivity | lia].
  - apply andb_true_iff in H as [Hc Ht]. rewrite Hc.
    destruct (IH (10 * acc + (ord c - 48))%N Ht) as (v & Hv & Hle).
    exists v. split; [exact Hv | lia].
Qed.

Lemma all_digits_free (t : string) : all_digits t = true → free_of "." t.
Proof.
  induction t as [|c t IH]; simpl; intros H; [apply free_of_empty|].
  apply andb_true_iff in H as [Hc Ht].
  apply free_of_cons. split; [|now apply IH].
  intros ->. discriminate Hc.
Qed.

Lemma numeric_series_all_digits (c1 c2 : ascii) (r : string) :
  all_digits (String c1 (String c2 r)) = true →
  ∃ v, numeric_series (String c1 (String c2 r)) = Some [v]
       ∧ (10 * (ord c1 - 48) + (ord c2 - 48) <= v)%N.
Proof.
  intros H. pose proof (all_digits_free _ H) as Hf.
  cbn [all_digits] in H.
  apply andb_true_iff in H as [H1 H]. apply andb_true_iff in H as [H2 Hr].
  destruct (read_decimal_all_digits r
              (10 * (10 * 0 + (ord c1 - 48)) + (ord c2 - 48))%N Hr)
    as (v & Hv & Hle).
  exists v. split; [|lia].
  unfold numeric_series. rewrite (split_free_piece "." _ Hf).
  assert (Hc : numeric_component (String c1 (String c2 r)) = Some v).
  { unfold numeric_component. cbn [read_decimal]. now rewrite H1, H2. }
  cbn [mapM]. now rewrite Hc.
Qed.

(** The claim C8 fails as stated: the series 2 and the series of 4301
    ones are both numbers, the first before the second, yet [int] leaves
    the second a string and the ordering is a [TypeError]. *)
Lemma C8_counterexample :
  let a := {| distribution := "ubuntu"; series := "2" |} in
  let b := {| distribution := "ubuntu"; series := repeated 4301 "1" |} in
  distribution a = distribution b
  ∧ (∃ va vb, numeric_series (series a) = Some va
              ∧ numeric_series (series b) = Some vb
              ∧ numerically_before va vb)
  ∧ base_cmp Py_LT a (IsDistroBase b) = Raise TypeError
  ∧ ¬ compares_smaller a b.
Proof.
  cbv zeta.
  assert (Hlt : base_cmp Py_LT {| distribution := "ubuntu"; series := "2" |}
                  (IsDistroBase {| distribution := "ubuntu";
                                   series := repeated 4301 "1" |})
                = Raise TypeError) by (vm_compute; reflexivity).
  split; [reflexivity|]. split; [|split; [exact Hlt|]].
  - destruct (numeric_series_all_digits "1" "1" (repeated 4299 "1"))
      as (v & Hv & Hle); [vm_compute; reflexivity|].
    exists [2%N], [v]. split; [reflexivity|]. split; [exact Hv|].
    left. revert Hle. cbn. lia.
  - intros (H & _). rewrite Hlt in H. discriminate H.
Qed.

(** ** What can go wrong *)

Lemma item_eq_decide (x y : int_or_str) : item_eq x y = bool_decide (x = y).
Proof.
  destruct x as [x|x], y as [y|y]; cbn [item_eq].
  - destruct (Z.eqb_spec x y) as [->|Hne].
    + now rewrite bool_decide_eq_true_2.
    + rewrite bool_decide_eq_false_2; [reflexivity | congruence].
  - now rewrite bool_decide_eq_false_2.
  - now rewrite bool_decide_eq_false_2.
  - destruct (String.eqb_spec x y) as [->|Hne].
    + now rewrite bool_decide_eq_true_2.
    + rewrite bool_decide_eq_false_2; [reflexivity | congruence].
Qed.

Lemma tuplerichcompare_orderable (op : cmpop) (v : list int_or_str) :
  ∀ w, if orderable v w
       then ∃ r, tuplerichcompare op v w = Ok r
       else tuplerichcompare op v w = Raise TypeError.
Proof.
  unfold orderable.
  induction v as [|x v IH]; intros [|y w]; simpl; eauto.
  rewrite item_eq_decide. destruct (decide (x = y)) as [->|Hne].
  - rewrite bool_decide_eq_true_2 by reflexivity. apply IH.
  - rewrite bool_decide_eq_false_2 by exact Hne.
    destruct x, y; simpl; eauto.
Qed.

Lemma tuplerichcompare_no_value_error
    (op : cmpop) (v w : list int_or_str) (msg : string) :
  tuplerichcompare op v w ≠ Raise (ValueError msg).
Proof.
  pose proof (tuplerichcompare_orderable op v w) as H.
  destruct (orderable v w).
  - destruct H as [r ->]. discriminate.
  - rewrite H. discriminate.
Qed.

Lemma ordering_value_error
    (op : cmpop) (a : DistroBase) (o : operand) (msg : string) :
  ordering op a o = Raise (ValueError msg) →
  ∃ d, operand_distribution o = Some d
       ∧ distribution a ≠ d
       ∧ msg = incompatible_message (distribution a) d.
Proof.
  intros H. destruct (operand_distribution o) as [d|] eqn:Hd.
  - destruct (decide (distribution a = d)) as [<-|Hne].
    + exfalso. unfold ordering in H. rewrite (ensure_passes a o Hd) in H.
      revert H. run.
      destruct (_get_version o) as [v|e] eqn:Hv.
      * apply tuplerichcompare_no_value_error.
      * destruct o as [b|name ver|items|i]; simpl in Hv; try discriminate.
        unfold getitem in Hv. destruct (items !! 1); inversion Hv. discriminate.
    + exists d. rewrite (ordering_raises op a o d Hd Hne) in H.
      injection H as <-. auto.
  - exfalso. unfold ordering, _ensure_bases_comparable in H.
    destruct o as [b|name ver|items|i]; simpl in Hd; try discriminate.
    unfold getitem in H. rewrite Hd in H. discriminate.
Qed.

(** C6. The module raises two errors of its own: the malformed base
    string from [from_str] and the incomparable distributions from the
    ordering methods, the latter only for operands of another
    distribution.  The run time adds two.  Between bases of one
    distribution an ordering returns a boolean when the version tuples
    do not first differ at an integer against a string, and is a
    [TypeError] when they do.  Equality with a tuple returns a boolean
    when the tuple has two elements or more, or a single element other
    than the distribution, and is an [IndexError] when the tuple is empty
    or is the distribution alone. *)
Theorem C6_failure_modes :
  (∀ s e, from_str s = Raise e →
          e = ValueError (malformed_message s) ∧ ¬ exactly_one "@" s)
  ∧ (∀ op a o msg, base_cmp op a o = Raise (ValueError msg) →
       ∃ d, operand_distribution o = Some d
            ∧ distribution a ≠ d
            ∧ msg = incompatible_message (distribution a) d)
  ∧ (∀ op a b, distribution a = distribution b →
       if orderable (_get_version_tuple (series a)) (_get_version_tuple (series b))
       then ∃ r, base_cmp op a (IsDistroBase b) = Ok r
       else base_cmp op a (IsDistroBase b) = Raise TypeError)
  ∧ (∀ b items,
       base_eq b (IsTuple items)
       = match items with
         | [] => Raise IndexError
         | [d] => if decide (distribution b = d) then Raise IndexError
                  else Ok false
         | d :: v :: _ => Ok (bool_decide (distribution b = d ∧ series b = v))
         end).
Proof.
  split; [|split; [|split]].
  - intros s e H. unfold from_str in H.
    destruct (decide (count "@" s = 1)) as [Hc|Hc].
    + rewrite bool_decide_eq_false_2 in H by auto.
      destruct (partition "@" s) as [[? ?] ?]. discriminate.
    + rewrite bool_decide_eq_true_2 in H by exact Hc. injection H as <-.
      split; [reflexivity|]. intros Hone. now apply exactly_one_count in Hone.
  - intros op a o msg. unfold base_cmp. rewrite method_ordering.
    apply ordering_value_error.
  - intros op a b Hd. unfold base_cmp. rewrite method_ordering.
    rewrite (ordering_compares op a (IsDistroBase b) (series b))
      by (simpl; congruence).
    apply tuplerichcompare_orderable.
  - intros b [|d [|v rest]].
    + reflexivity.
    + unfold base_eq, __eq__, getitem. run.
      destruct (String.eqb_spec (distribution b) d) as [He|Hne].
      * now rewrite decide_True by exact He.
      * now rewrite decide_False by exact Hne.
    + apply base_eq_pair.
Qed.

Lemma C6_failure_modes_witness :
  (∃ r, base_cmp Py_LT {| distribution := "debian"; series := "buster" |}
          (IsDistroBase {| distribution := "debian"; series := "bookworm" |}) = Ok r)
  ∧ base_cmp Py_LT {| distribution := "debian"; series := "10" |}
      (IsDistroBase {| distribution := "debian"; series := "buster" |}) = Raise TypeError
  ∧ base_eq (ubuntu "24.04") (IsTuple ["debian"]) = Ok false.
Proof.
  destruct C6_failure_modes as (_ & _ & Hord & Heq).
  split; [|split].
  - exact (Hord Py_LT {| distribution := "debian"; series := "buster" |}
             {| distribution := "debian"; series := "bookworm" |} eq_refl).
  - exact (Hord Py_LT {| distribution := "debian"; series := "10" |}
             {| distribution := "debian"; series := "buster" |} eq_refl).
  - exact (Heq (ubuntu "24.04") ["debian"]).
Defined.

(** The claim C6 fails as stated: two bases of one distribution whose
    ordering is a [TypeError], and a tuple whose equality with a base is
    an [IndexError]. *)
Lemma C6_counterexample :
  let ten := {| distribution := "debian"; series := "10" |} in
  let buster := {| distribution := "debian"; series := "buster" |} in
  distribution ten = distribution buster
  ∧ base_cmp Py_LT ten (IsDistroBase buster) = Raise TypeError
  ∧ base_cmp Py_GE ten (IsDistroBase buster) = Raise TypeError
  ∧ (¬ ∃ r, base_cmp Py_LT ten (IsDistroBase buster) = Ok r)
  ∧ base_eq ten (IsTuple []) = Raise IndexError
  ∧ (¬ ∃ r, base_eq ten (IsTuple []) = Ok r).
Proof.
  cbv zeta. repeat split.
  - intros [r H]. discriminate H.
  - intros [r H]. discriminate H.
Qed.

(** ** White space and words *)

Lemma append_eq_empty (a b : string) :
  a +:+ b = EmptyString → a = EmptyString ∧ b = EmptyString.
Proof. destruct a; [now split | discriminate]. Qed.

Lemma ends_blank_tail (c : ascii) (x : string) :
  ends_blank (String c x) → ends_blank x.
Proof.
  intros [H|(p & y & H & Hy)]; [discriminate|].
  destruct p as [|c' p].
  - rewrite append_empty_l in H. injection H as _ ->. now left.
  - rewrite append_cons in H. injection H as _ ->. right. now exists p, y.
Qed.

Lemma ends_blank_suffix (a b : string) : ends_blank (a +:+ b) → ends_blank b.
Proof.
  induction a as [|c a IH]; [now rewrite append_empty_l|].
  rewrite append_cons. intros H. apply IH. now apply ends_blank_tail with c.
Qed.

Lemma ends_blank_cons (c : ascii) (x : string) :
  ends_blank x →
  (x = EmptyString → Py_UNICODE_ISSPACE c = true) →
  ends_blank (String c x).
Proof.
  intros [->|(p & y & -> & Hy)] Hc; right.
  - exists EmptyString, c. split; [reflexivity | now apply Hc].
  - exists (String c p), y. split; [reflexivity | exact Hy].
Qed.

Lemma ends_blank_prepend (a x : string) :
  ends_blank x → x ≠ EmptyString → ends_blank (a +:+ x).
Proof.
  intros [->|(p & y & -> & Hy)] Hne; [contradiction|].
  right. exists (a +:+ p), y. split; [now rewrite append_assoc | exact Hy].
Qed.

Lemma split_whitespace_cons (c : ascii) (s : string) :
  split_whitespace (String c s)
  = if Py_UNICODE_ISSPACE c then split_whitespace s
    else match s with
         | EmptyString => [String c EmptyString]
         | String c' _ =>
             if Py_UNICODE_ISSPACE c'
             then String c EmptyString :: split_whitespace s
             else match split_whitespace s with
                  | t :: ts => String c t :: ts
                  | [] => [String c EmptyString]
                  end
         end.
Proof. reflexivity. Qed.

(** A text that starts inside a word gives that word, then the words of
    what follows it. *)
Lemma split_whitespace_word (s : string) :
  ∀ c, Py_UNICODE_ISSPACE c = false →
       split_whitespace (String c s)
       = String c (word_prefix s) :: split_whitespace (word_rest s).
Proof.
  induction s as [|c' s IH]; intros c Hc; rewrite split_whitespace_cons, Hc.
  - reflexivity.
  - cbn [word_prefix word_rest]. destruct (Py_UNICODE_ISSPACE c') eqn:Hc'.
    + reflexivity.
    + now rewrite (IH c' Hc').
Qed.

Lemma word_prefix_rest (s : string) : word_prefix s +:+ word_rest s = s.
Proof.
  induction s as [|c s IH]; [reflexivity|]. cbn [word_prefix word_rest].
  destruct (Py_UNICODE_ISSPACE c); [reflexivity|].
  now rewrite append_cons, IH.
Qed.

Lemma word_prefix_no_space (s : string) : no_space (word_prefix s).
Proof.
  induction s as [|c s IH]; [exact I|]. cbn [word_prefix].
  destruct (Py_UNICODE_ISSPACE c) eqn:Hc; [exact I | now split].
Qed.

Lemma word_rest_starts_blank (s : string) : starts_blank (word_rest s).
Proof.
  induction s as [|c s IH]; [now left|]. cbn [word_rest].
  destruct (Py_UNICODE_ISSPACE c) eqn:Hc; [|exact IH].
  right. now exists c, s.
Qed.

Lemma word_rest_length (s : string) :
  String.length (word_rest s) ≤ String.length s.
Proof.
  induction s as [|c s IH]; [reflexivity|]. cbn [word_rest].
  destruct (Py_UNICODE_ISSPACE c); simpl; lia.
Qed.

Lemma word_not_blank (t post : string) :
  t ≠ EmptyString → no_space t → ¬ starts_blank (t +:+ post).
Proof.
  intros Hne Ht [H|(x & p & H & Hx)].
  - apply append_eq_empty in H as [H _]. contradiction.
  - destruct t as [|y t]; [contradiction|]. rewrite append_cons in H.
    injection H as -> _. destruct Ht as [Hy _]. congruence.
Qed.

Lemma word_unique (w : string) :
  ∀ t rest post,
    no_space w → no_space t → starts_blank rest → starts_blank post →
    w +:+ rest = t +:+ post → w = t.
Proof.
  induction w as [|c w IH]; intros [|x t] rest post Hw Ht Hr Hp Heq.
  - reflexivity.
  - exfalso. rewrite append_empty_l in Heq. subst rest.
    now apply (word_not_blank (String x t) post).
  - exfalso. rewrite append_empty_l in Heq. subst post.
    now apply (word_not_blank (String c w) rest).
  - rewrite !append_cons in Heq. injection Heq as -> Heq.
    destruct Hw as [_ Hw], Ht as [_ Ht].
    f_equal. now apply (IH t rest post).
Qed.

Lemma word_boundary (w : string) :
  ∀ pre x rest,
    no_space w → pre ≠ EmptyString → ends_blank pre →
    w +:+ rest = pre +:+ x →
    ∃ pre', pre = w +:+ pre' ∧ rest = pre' +:+ x ∧ pre' ≠ EmptyString.
Proof.
  induction w as [|c w IH]; intros pre x rest Hw Hne He Heq.
  - exists pre. now rewrite append_empty_l in Heq.
  - destruct pre as [|y pre1]; [contradiction|].
    rewrite !append_cons in Heq. injection Heq as <- Heq.
    destruct Hw as [Hc Hw].
    destruct (decide (pre1 = EmptyString)) as [->|Hne1].
    + exfalso. destruct He as [H|(p & z & H & Hz)]; [discriminate|].
      destruct p as [|c' p].
      * rewrite append_empty_l in H. injection H as ->. congruence.
      * rewrite append_cons in H. injection H as _ H.
        symmetry in H. apply append_eq_empty in H as [_ H]. discriminate.
    + destruct (IH pre1 x rest Hw Hne1 (ends_blank_tail c pre1 He) Heq)
        as (pre' & -> & Hr & Hne').
      exists pre'. now rewrite append_cons.
Qed.

(** The words [split_whitespace] returns are the pieces of the text that
    stand between white space. *)
Lemma split_whitespace_token (t : string) :
  t ≠ EmptyString → no_space t →
  ∀ n s, String.length s ≤ n →
         (t ∈ split_whitespace s ↔ whitespace_token t s).
Proof.
  intros Hne Ht.
  assert (Hempty : t ∈ split_whitespace EmptyString ↔ whitespace_token t EmptyString).
  { simpl. split; [intros H; now apply elem_of_nil in H|].
    intros (pre & post & H & _). symmetry in H.
    apply append_eq_empty in H as [_ H]. apply append_eq_empty in H as [H _].
    contradiction. }
  induction n as [|n IH]; intros [|c s] Hlen; try exact Hempty.
  { simpl in Hlen. lia. }
  simpl in Hlen. destruct (Py_UNICODE_ISSPACE c) eqn:Hc.
  - rewrite split_whitespace_cons, Hc, (IH s) by lia. split.
    + intros (pre & post & -> & He & Hs). exists (String c pre), post.
      split; [reflexivity|]. split; [now apply ends_blank_cons | exact Hs].
    + intros (pre & post & Heq & He & Hs). destruct pre as [|y pre1].
      * exfalso. apply (word_not_blank t post Hne Ht).
        rewrite append_empty_l in Heq. rewrite <- Heq. right. now exists c, s.
      * rewrite append_cons in Heq. injection Heq as <- ->.
        exists pre1, post. split; [reflexivity|].
        split; [now apply ends_blank_tail with c | exact Hs].
  - rewrite (split_whitespace_word s c Hc), elem_of_cons.
    pose proof (word_rest_length s) as Hrl.
    rewrite (IH (word_rest s)) by lia.
    assert (Hw : no_space (String c (word_prefix s))).
    { split; [exact Hc | apply word_prefix_no_space]. }
    assert (Hs_eq : String c s = String c (word_prefix s) +:+ word_rest s).
    { now rewrite append_cons, word_prefix_rest. }
    pose proof (word_rest_starts_blank s) as Hrb.
    split.
    + intros [->|(pre & post & Hr & He & Hs)].
      * exists EmptyString, (word_rest s).
        split; [exact Hs_eq|]. split; [now left | exact Hrb].
      * exists (String c (word_prefix s) +:+ pre), post.
        split; [rewrite Hs_eq, Hr; now rewrite append_assoc|].
        split; [|exact Hs]. apply ends_blank_prepend; [exact He|].
        intros ->. rewrite append_empty_l in Hr. rewrite Hr in Hrb.
        now apply (word_not_blank t post Hne Ht).
    + intros (pre & post & Heq & He & Hs). rewrite Hs_eq in Heq.
      destruct (decide (pre = EmptyString)) as [->|Hnp].
      * left. rewrite append_empty_l in Heq. symmetry.
        exact (word_unique _ t _ post Hw Ht Hrb Hs Heq).
      * right.
        destruct (word_boundary _ pre (t +:+ post) (word_rest s) Hw Hnp He Heq)
          as (pre' & -> & Hr & Hnp').
        exists pre', post. split; [exact Hr|].
        split; [now apply ends_blank_suffix in He | exact Hs].
Qed.

(** C7. A distribution is Ubuntu-like exactly when its id is [ubuntu] or
    [ubuntu] is one of the words of its [like] field, the words being
    what stands between white space. *)
Theorem C7_is_ubuntu_like (host d : distro.LinuxDistribution) :
  (is_ubuntu_like host (Some d) = true
   ↔ distro.id d = "ubuntu" ∨ whitespace_token "ubuntu" (distro.like d))
  ∧ is_ubuntu_like host None = is_ubuntu_like host (Some host)
  ∧ is_ubuntu_like host
      (Some {| distro.id := "centos"; distro.version := distro.version d;
               distro.like := "rhel fedora" |}) = false
  ∧ is_ubuntu_like host
      (Some {| distro.id := "ubuntu"; distro.version := distro.version d;
               distro.like := distro.like d |}) = true
  ∧ is_ubuntu_like host
      (Some {| distro.id := "linuxmint"; distro.version := distro.version d;
               distro.like := "ubuntu debian" |}) = true
  ∧ is_ubuntu_like host
      (Some {| distro.id := "debian"; distro.version := distro.version d;
               distro.like := EmptyString |}) = false.
Proof.
  split; [|repeat split].
  change (is_ubuntu_like host (Some d))
    with (if String.eqb (distro.id d) "ubuntu" then true
          else if bool_decide ("ubuntu" ∈ split_whitespace (distro.like d))
               then true else false).
  destruct (String.eqb_spec (distro.id d) "ubuntu") as [Hid|Hid].
  - split; [now left | reflexivity].
  - assert (Htok : "ubuntu" ∈ split_whitespace (distro.like d)
                   ↔ whitespace_token "ubuntu" (distro.like d)).
    { apply (split_whitespace_token "ubuntu") with (n := String.length (distro.like d)).
      - discriminate.
      - cbn. repeat split.
      - reflexivity. }
    case_bool_decide as Hin.
    + split; [intros _; right; now apply Htok | reflexivity].
    + split; [discriminate|]. intros [H|H]; [contradiction|].
      exfalso. apply Hin. now apply Htok.
Qed.

(** ** The order of version tuples *)

Lemma string_compare_refl (x : string) : String.compare x x = Eq.
Proof.
  pose proof (String.compare_antisym x x) as H.
  destruct (String.compare x x); simpl in H; congruence.
Qed.

Lemma string_leb_ltb (x y : string) : String.leb x y = negb (String.ltb y x).
Proof.
  unfold String.leb, String.ltb. rewrite (String.compare_antisym y x).
  now destruct (String.compare x y).
Qed.

Lemma string_ltb_leb_ne (x y : string) :
  String.ltb x y = true ↔ String.leb x y = true ∧ x ≠ y.
Proof.
  unfold String.ltb, String.leb. split.
  - destruct (String.compare x y) eqn:Hc; try discriminate.
    intros _. split; [reflexivity|]. intros ->.
    rewrite string_compare_refl in Hc. discriminate.
  - intros [Hle Hne]. destruct (String.compare x y) eqn:Hc; try easy.
    apply String.compare_eq_iff in Hc. contradiction.
Qed.

Lemma string_ltb_trans (x y z : string) :
  String.ltb x y = true → String.ltb y z = true → String.ltb x z = true.
Proof.
  rewrite !string_ltb_leb_ne. intros [Hxy Hne1] [Hyz Hne2].
  assert (Hxz : String.leb x z = true).
  { apply Is_true_true. apply (transitivity (R := String.le) (y := y));
      unfold String.le; now apply Is_true_true. }
  split; [exact Hxz|]. intros ->.
  apply Hne1. now apply String.leb_antisym.
Qed.

Lemma item_eq_refl (x : int_or_str) : item_eq x x = true.
Proof. rewrite item_eq_decide. now apply bool_decide_eq_true_2. Qed.

Lemma item_eq_sym (x y : int_or_str) : item_eq x y = item_eq y x.
Proof. rewrite !item_eq_decide. apply bool_decide_ext. split; congruence. Qed.

Lemma item_eq_true (x y : int_or_str) : item_eq x y = true → x = y.
Proof. rewrite item_eq_decide. apply bool_decide_eq_true_1. Qed.

Lemma item_richcompare_swapped (op : cmpop) (x y : int_or_str) :
  item_richcompare op x y = item_richcompare (swapped op) y x.
Proof. destruct x, y, op; reflexivity. Qed.

Lemma tuplerichcompare_swapped (op : cmpop) (v : list int_or_str) :
  ∀ w, tuplerichcompare op v w = tuplerichcompare (swapped op) w v.
Proof.
  induction v as [|x v IH]; intros [|y w]; try (destruct op; reflexivity).
  simpl. rewrite (item_eq_sym y x), IH, item_richcompare_swapped.
  reflexivity.
Qed.

Lemma item_richcompare_negated (op : cmpop) (x y : int_or_str) (r : bool) :
  item_richcompare op x y = Ok r →
  item_richcompare (negated op) x y = Ok (negb r).
Proof.
  destruct x as [x|x], y as [y|y]; simpl; try discriminate;
    intros H; injection H as <-; f_equal.
  - destruct op; simpl;
      rewrite ?Z.leb_antisym, ?Z.ltb_antisym, ?negb_involutive; reflexivity.
  - destruct op; simpl;
      rewrite ?string_leb_ltb, ?negb_involutive; reflexivity.
Qed.

Lemma len_richcompare_negated (op : cmpop) (m n : nat) :
  len_richcompare (negated op) m n = negb (len_richcompare op m n).
Proof.
  destruct op; simpl;
    rewrite ?Nat.leb_antisym, ?Nat.ltb_antisym, ?negb_involutive; reflexivity.
Qed.

Lemma tuplerichcompare_negated (op : cmpop) (v : list int_or_str) :
  ∀ w r, tuplerichcompare op v w = Ok r →
         tuplerichcompare (negated op) v w = Ok (negb r).
Proof.
  induction v as [|x v IH]; intros [|y w] r; simpl;
    try (intros H; injection H as <-; f_equal; apply len_richcompare_negated).
  destruct (item_eq x y).
  - apply IH.
  - apply item_richcompare_negated.
Qed.

Lemma tuplerichcompare_refl (op : cmpop) (v : list int_or_str) :
  tuplerichcompare op v v = Ok (holds_on_equal op).
Proof.
  induction v as [|x v IH]; simpl.
  - now destruct op.
  - now rewrite item_eq_refl.
Qed.

Lemma item_lt_trans (x y z : int_or_str) :
  item_richcompare Py_LT x y = Ok true →
  item_richcompare Py_LT y z = Ok true →
  item_richcompare Py_LT x z = Ok true ∧ item_eq x z = false.
Proof.
  destruct x as [x|x], y as [y|y], z as [z|z]; simpl; try discriminate;
    intros H1 H2; injection H1 as H1; injection H2 as H2.
  - apply Z.ltb_lt in H1, H2. split.
    + f_equal. apply Z.ltb_lt. lia.
    + apply Z.eqb_neq. lia.
  - pose proof (string_ltb_trans x y z H1 H2) as H. split.
    + now rewrite H.
    + apply String.eqb_neq. now apply string_ltb_leb_ne in H as [_ H].
Qed.

Lemma tuplerichcompare_lt_trans (u : list int_or_str) :
  ∀ v w, tuplerichcompare Py_LT u v = Ok true →
         tuplerichcompare Py_LT v w = Ok true →
         tuplerichcompare Py_LT u w = Ok true.
Proof.
  induction u as [|x u IH]; intros [|y v] [|z w]; simpl; try discriminate;
    try (intros; reflexivity).
  destruct (item_eq x y) eqn:Hxy, (item_eq y z) eqn:Hyz; intros H1 H2.
  - apply item_eq_true in Hxy as ->. rewrite Hyz. now apply (IH v w).
  - apply item_eq_true in Hxy as ->. now rewrite Hyz.
  - apply item_eq_true in Hyz as ->. now rewrite Hxy.
  - destruct (item_lt_trans x y z H1 H2) as [Hlt Hne]. now rewrite Hne.
Qed.

(** ** Further properties of the comparisons *)

Lemma ordering_ok_inv (op : cmpop) (b : DistroBase) (o : operand) (r : bool) :
  ordering op b o = Ok r →
  ∃ v, operand_distribution o = Some (distribution b)
       ∧ operand_version o = Some v
       ∧ tuplerichcompare op (_get_version_tuple (series b))
           (_get_version_tuple v) = Ok r.
Proof.
  intros H. destruct (operand_distribution o) as [d|] eqn:Hd.
  - destruct (decide (distribution b = d)) as [<-|Hne].
    + destruct (operand_version o) as [v|] eqn:Hv.
      * exists v. rewrite (ordering_compares op b o v Hd Hv) in H. auto.
      * exfalso. unfold ordering in H. rewrite (ensure_passes b o Hd) in H.
        destruct o as [a|name ver|items|i]; simpl in Hv; try discriminate.
        revert H. run. unfold getitem. rewrite Hv. discriminate.
    + rewrite (ordering_raises op b o d Hd Hne) in H. discriminate.
  - exfalso. unfold ordering, _ensure_bases_comparable in H.
    destruct o as [a|name ver|items|i]; simpl in Hd; try discriminate.
    unfold getitem in H. rewrite Hd in H. discriminate.
Qed.

Lemma base_eq_true_inv (b : DistroBase) (o : operand) :
  base_eq b o = Ok true →
  operand_distribution o = Some (distribution b)
  ∧ operand_version o = Some (series b).
Proof.
  unfold base_eq, __eq__. destruct o as [a|name ver|items|i]; run.
  - intros H. injection H as H. apply andb_true_iff in H as [H1 H2].
    apply String.eqb_eq in H1, H2. now rewrite H1, H2.
  - intros H. injection H as H. apply andb_true_iff in H as [H1 H2].
    apply String.eqb_eq in H1, H2. now rewrite H1, H2.
  - unfold getitem. destruct items as [|d [|v rest]]; run; try discriminate.
    + destruct (String.eqb (distribution b) d); discriminate.
    + destruct (String.eqb_spec (distribution b) d) as [->|_]; [|discriminate].
      intros H. injection H as H. apply String.eqb_eq in H. now rewrite H.
  - discriminate.
Qed.

(** X1. Between two bases of one distribution, every ordering read from
    the other side with the reflected operator gives the same outcome,
    booleans and [TypeError] alike; [==] between two bases does not
    depend on the side either. *)
Theorem X1_ordering_mirror (op : cmpop) (a b : DistroBase) :
  distribution a = distribution b →
  base_cmp op a (IsDistroBase b) = base_cmp (swapped op) b (IsDistroBase a)
  ∧ base_eq a (IsDistroBase b) = base_eq b (IsDistroBase a).
Proof.
  intros Hd. split.
  - unfold base_cmp. rewrite !method_ordering.
    rewrite (ordering_compares op a (IsDistroBase b) (series b))
      by (simpl; congruence).
    rewrite (ordering_compares (swapped op) b (IsDistroBase a) (series a))
      by (simpl; congruence).
    apply tuplerichcompare_swapped.
  - unfold base_eq, __eq__. run.
    now rewrite (String.eqb_sym (distribution a)), (String.eqb_sym (series a)).
Qed.

Lemma X1_ordering_mirror_witness :
  distribution (ubuntu "22.04") = distribution (ubuntu "24.04")
  ∧ base_cmp Py_LE (ubuntu "22.04") (IsDistroBase (ubuntu "24.04"))
    = base_cmp Py_GE (ubuntu "24.04") (IsDistroBase (ubuntu "22.04")).
Proof.
  assert (H : distribution (ubuntu "22.04") = distribution (ubuntu "24.04"))
    by reflexivity.
  split; [exact H|].
  exact (proj1 (X1_ordering_mirror Py_LE (ubuntu "22.04") (ubuntu "24.04") H)).
Defined.

(** X2. Whenever an ordering method returns a boolean, the method of the
    opposite relation ([<] against [>=], [<=] against [>]) returns its
    negation on the same operands. *)
Theorem X2_ordering_negation
    (op : cmpop) (b : DistroBase) (o : operand) (r : bool) :
  method op b o = Ok r → method (negated op) b o = Ok (negb r).
Proof.
  rewrite !method_ordering. intros H.
  destruct (ordering_ok_inv op b o r H) as (v & Hd & Hv & Hcmp).
  rewrite (ordering_compares (negated op) b o v Hd Hv).
  now apply tuplerichcompare_negated.
Qed.

Lemma X2_ordering_negation_witness :
  method Py_LT (ubuntu "22.04") (IsTuple ["ubuntu"; "24.04"]) = Ok true
  ∧ method Py_GE (ubuntu "22.04") (IsTuple ["ubuntu"; "24.04"]) = Ok false.
Proof.
  assert (H : method Py_LT (ubuntu "22.04") (IsTuple ["ubuntu"; "24.04"]) = Ok true)
    by reflexivity.
  split; [exact H|].
  exact (X2_ordering_negation Py_LT (ubuntu "22.04")
           (IsTuple ["ubuntu"; "24.04"]) true H).
Defined.

(** X3. An operand that [==] finds equal to the base never makes an
    ordering raise, whatever the series: [<=] and [>=] are true, [<] and
    [>] are false. *)
Theorem X3_equal_operands_order (op : cmpop) (b : DistroBase) (o : operand) :
  base_eq b o = Ok true → method op b o = Ok (holds_on_equal op).
Proof.
  intros H. apply base_eq_true_inv in H as [Hd Hv].
  rewrite method_ordering, (ordering_compares op b o (series b) Hd Hv).
  apply tuplerichcompare_refl.
Qed.

Lemma X3_equal_operands_order_witness :
  base_eq {| distribution := "debian"; series := "sid" |}
    (IsBaseName "debian" "sid") = Ok true
  ∧ method Py_LE {| distribution := "debian"; series := "sid" |}
      (IsBaseName "debian" "sid") = Ok true.
Proof.
  assert (H : base_eq {| distribution := "debian"; series := "sid" |}
                (IsBaseName "debian" "sid") = Ok true) by reflexivity.
  split; [exact H|].
  exact (X3_equal_operands_order Py_LE
           {| distribution := "debian"; series := "sid" |}
           (IsBaseName "debian" "sid") H).
Defined.

(** X4. [<] and [>] between bases are transitive: when both comparisons
    return true, so does the comparison of the outer two, and it does
    not raise. *)
Theorem X4_strict_order_transitive (op : cmpop) (a b c : DistroBase) :
  op = Py_LT ∨ op = Py_GT →
  base_cmp op a (IsDistroBase b) = Ok true →
  base_cmp op b (IsDistroBase c) = Ok true →
  base_cmp op a (IsDistroBase c) = Ok true.
Proof.
  unfold base_cmp. rewrite !method_ordering. intros Hop Hab Hbc.
  destruct (ordering_ok_inv _ _ _ _ Hab) as (vb & Hd1 & Hv1 & H1).
  destruct (ordering_ok_inv _ _ _ _ Hbc) as (vc & Hd2 & Hv2 & H2).
  simpl in Hd1, Hv1, Hd2, Hv2.
  injection Hv1 as <-. injection Hv2 as <-.
  rewrite (ordering_compares op a (IsDistroBase c) (series c))
    by (simpl; congruence).
  destruct Hop as [-> | ->].
  - now apply tuplerichcompare_lt_trans with (_get_version_tuple (series b)).
  - rewrite (tuplerichcompare_swapped Py_GT) in H1, H2 |- *. simpl swapped in *.
    now apply tuplerichcompare_lt_trans with (_get_version_tuple (series b)).
Qed.

Lemma X4_strict_order_transitive_witness :
  base_cmp Py_LT (ubuntu "9.10") (IsDistroBase (ubuntu "10.04")) = Ok true
  ∧ base_cmp Py_LT (ubuntu "10.04") (IsDistroBase (ubuntu "10.10")) = Ok true
  ∧ base_cmp Py_LT (ubuntu "9.10") (IsDistroBase (ubuntu "10.10")) = Ok true.
Proof.
  assert (H1 : base_cmp Py_LT (ubuntu "9.10") (IsDistroBase (ubuntu "10.04")) = Ok true)
    by reflexivity.
  assert (H2 : base_cmp Py_LT (ubuntu "10.04") (IsDistroBase (ubuntu "10.10")) = Ok true)
    by reflexivity.
  split; [exact H1|]. split; [exact H2|].
  exact (X4_strict_order_transitive Py_LT (ubuntu "9.10") (ubuntu "10.04")
           (ubuntu "10.10") (or_introl eq_refl) H1 H2).
Defined.

(** X5. The three shapes of an operand are interchangeable: an object
    with [name] and [version], and a tuple that starts with the same two
    strings, get from every ordering method and from [==] the outcome
    the base with these fields gets, errors and messages included. *)
Theorem X5_shapes_interchangeable
    (op : cmpop) (b : DistroBase) (d v : string) (rest : list string) :
  let other := IsDistroBase {| distribution := d; series := v |} in
  method op b (IsBaseName d v) = method op b other
  ∧ method op b (IsTuple (d :: v :: rest)) = method op b other
  ∧ base_eq b (IsBaseName d v) = base_eq b other
  ∧ base_eq b (IsTuple (d :: v :: rest)) = base_eq b other.
Proof.
  intros other. split; [|split; [|split]].
  - destruct op; reflexivity.
  - destruct op; reflexivity.
  - reflexivity.
  - unfold other. rewrite base_eq_pair. unfold base_eq, __eq__. run.
    now rewrite eqb_pair_decide.
Qed.

(** X6. A tuple too short to hold a version: every ordering method
    raises [IndexError] on the empty tuple and on the tuple that holds
    the distribution of the base alone, and the error about incomparable
    distributions on a tuple that holds another distribution alone; on
    an object with neither attributes nor elements it raises
    [TypeError]. *)
Theorem X6_ordering_short_tuple (op : cmpop) (b : DistroBase) :
  method op b (IsTuple []) = Raise IndexError
  ∧ method op b (IsTuple [distribution b]) = Raise IndexError
  ∧ (∀ d, distribution b ≠ d →
          method op b (IsTuple [d])
          = Raise (ValueError (incompatible_message (distribution b) d)))
  ∧ (∀ i, method op b (IsObject i) = Raise TypeError).
Proof.
  rewrite !method_ordering. split; [|split; [|split]].
  - reflexivity.
  - unfold ordering. rewrite (ensure_passes b (IsTuple [distribution b]))
      by reflexivity. reflexivity.
  - intros d Hne. now apply ordering_raises.
  - intros i. reflexivity.
Qed.

(** ** Further properties of parsing and of version tuples *)

Lemma from_str_ok_inv (s : string) (b : DistroBase) :
  from_str s = Ok b →
  s = distribution b +:+ String "@" (series b)
  ∧ free_of "@" (distribution b) ∧ free_of "@" (series b).
Proof.
  intros H. destruct (decide (count "@" s = 1)) as [Hc|Hc].
  - apply exactly_one_count in Hc as (d & r & -> & Hd & Hr).
    rewrite (from_str_parts d r Hd Hr) in H. injection H as <-. now simpl.
  - unfold from_str in H. rewrite bool_decide_eq_true_2 in H by exact Hc.
    discriminate.
Qed.

(** X7. What [from_str] returns determines its input: the string is the
    distribution, an [@] and the series, neither field holds an [@], and
    no other string parses to the same base. *)
Theorem X7_from_str_inverse (s : string) (b : DistroBase) :
  from_str s = Ok b →
  s = distribution b +:+ String "@" (series b)
  ∧ free_of "@" (distribution b)
  ∧ free_of "@" (series b)
  ∧ (∀ s', from_str s' = Ok b → s' = s).
Proof.
  intros H. destruct (from_str_ok_inv s b H) as (Hs & Hd & Hr).
  split; [exact Hs|]. split; [exact Hd|]. split; [exact Hr|].
  intros s' H'. destruct (from_str_ok_inv s' b H') as (Hs' & _). congruence.
Qed.

Lemma X7_from_str_inverse_witness :
  from_str "almalinux@9.4" = Ok {| distribution := "almalinux"; series := "9.4" |}
  ∧ free_of "@" "almalinux" ∧ free_of "@" "9.4".
Proof.
  assert (H : from_str "almalinux@9.4"
              = Ok {| distribution := "almalinux"; series := "9.4" |})
    by reflexivity.
  split; [exact H|].
  destruct (X7_from_str_inverse "almalinux@9.4" _ H) as (_ & Hd & Hr & _).
  split; [exact Hd | exact Hr].
Defined.

Lemma split_append (sep : ascii) (s1 s2 : string) :
  split sep (s1 +:+ String sep s2) = split sep s1 ++ split sep s2.
Proof.
  induction s1 as [|c s1 IH].
  - rewrite append_empty_l. simpl. now rewrite Ascii.eqb_refl.
  - rewrite append_cons. simpl. rewrite IH.
    destruct (Ascii.eqb c sep); [reflexivity|].
    pose proof (split_nonempty sep s1) as Hne.
    destruct (split sep s1) as [|t ts]; [contradiction | reflexivity].
Qed.

Lemma length_split (sep : ascii) (s : string) :
  length (split sep s) = S (count sep s).
Proof.
  induction s as [|c s IH]; [reflexivity|]. simpl.
  destruct (Ascii.eqb c sep); simpl; [now rewrite IH|].
  pose proof (split_nonempty sep s) as Hne.
  destruct (split sep s) as [|t ts]; [contradiction|]. simpl in *. lia.
Qed.

(** X8. The version tuple of two series joined by a dot is the version
    tuple of the first followed by the one of the second; a version
    tuple has one element more than the series has dots, so it is never
    empty. *)
Theorem X8_version_tuple_append (s1 s2 : string) :
  _get_version_tuple (s1 +:+ String "." s2)
  = _get_version_tuple s1 ++ _get_version_tuple s2
  ∧ length (_get_version_tuple s1) = S (count "." s1).
Proof.
  rewrite !_get_version_tuple_coerce. split.
  - now rewrite split_append, fmap_app.
  - now rewrite length_fmap, length_split.
Qed.

Lemma tuplerichcompare_common_prefix (op : cmpop) (u v w : list int_or_str) :
  tuplerichcompare op (u ++ v) (u ++ w) = tuplerichcompare op v w.
Proof.
  induction u as [|x u IH]; [reflexivity|].
  simpl. now rewrite item_eq_refl.
Qed.

(** X9. A leading part that two series share does not count: comparing
    [p.s1] with [p.s2] gives what comparing [s1] with [s2] gives, under
    every ordering and with the same errors. *)
Theorem X9_common_prefix (op : cmpop) (d p s1 s2 : string) :
  base_cmp op {| distribution := d; series := p +:+ String "." s1 |}
    (IsDistroBase {| distribution := d; series := p +:+ String "." s2 |})
  = base_cmp op {| distribution := d; series := s1 |}
      (IsDistroBase {| distribution := d; series := s2 |}).
Proof.
  unfold base_cmp. rewrite !method_ordering.
  rewrite (ordering_compares op _ (IsDistroBase _) (p +:+ String "." s2))
    by reflexivity.
  rewrite (ordering_compares op {| distribution := d; series := s1 |}
             (IsDistroBase _) s2) by reflexivity.
  cbn [series].
  rewrite !_get_version_tuple_coerce, !split_append, !fmap_app.
  apply tuplerichcompare_common_prefix.
Qed.

(** ** Further properties of series of numbers *)

Lemma tuplerichcompare_numbers_ok (op : cmpop) (v : list N) :
  ∀ w, ∃ r, tuplerichcompare op ((λ n, PyInt (Z.of_N n)) <$> v)
              ((λ n, PyInt (Z.of_N n)) <$> w) = Ok r.
Proof.
  induction v as [|x v IH]; intros [|y w]; simpl; eauto.
  destruct (Z.of_N x =? Z.of_N y)%Z; eauto.
Qed.

Lemma numerically_before_total (v : list N) :
  ∀ w, numerically_before v w ∨ v = w ∨ numerically_before w v.
Proof.
  induction v as [|x v IH]; intros [|y w]; simpl; auto.
  destruct (N.lt_trichotomy x y) as [H|[->|H]]; auto.
  destruct (IH w) as [H|[->|H]]; auto.
Qed.

(** X10. Series made of numbers that [int] converts (no more than
    [max_str_digits] digits each) are totally ordered within one
    distribution: no ordering raises, and either one base compares
    smaller than the other by all operators, or the numbers are the same
    and then [<=] and [>=] are true and [<] and [>] false. *)
Theorem X10_numeric_series_total (a b : DistroBase) (va vb : list N) :
  distribution a = distribution b →
  numeric_series (series a) = Some va →
  numeric_series (series b) = Some vb →
  within_digit_cap (series a) = true →
  within_digit_cap (series b) = true →
  (∀ op, ∃ r, base_cmp op a (IsDistroBase b) = Ok r)
  ∧ (compares_smaller a b
     ∨ compares_smaller b a
     ∨ (va = vb ∧ ∀ op, base_cmp op a (IsDistroBase b) = Ok (holds_on_equal op))).
Proof.
  intros Hd Ha Hb Hca Hcb.
  assert (Hcmp : ∀ op, base_cmp op a (IsDistroBase b)
                 = tuplerichcompare op ((λ n, PyInt (Z.of_N n)) <$> va)
                     ((λ n, PyInt (Z.of_N n)) <$> vb)).
  { intros op. unfold base_cmp. rewrite method_ordering.
    rewrite (ordering_compares op a (IsDistroBase b) (series b))
      by (simpl; congruence).
    now rewrite (numeric_version_tuple _ _ Ha Hca),
      (numeric_version_tuple _ _ Hb Hcb). }
  split.
  - intros op. rewrite Hcmp. apply tuplerichcompare_numbers_ok.
  - destruct (numerically_before_total va vb) as [H|[->|H]].
    + left. now apply numeric_order with va vb.
    + right; right. split; [reflexivity|]. intros op. rewrite Hcmp.
      apply tuplerichcompare_refl.
    + right; left. now apply numeric_order with vb va.
Qed.

Lemma X10_numeric_series_total_witness :
  numeric_series "8.10" = Some [8; 10]%N
  ∧ numeric_series "9.4" = Some [9; 4]%N
  ∧ within_digit_cap "8.10" = true
  ∧ within_digit_cap "9.4" = true
  ∧ ∃ r, base_cmp Py_GE {| distribution := "almalinux"; series := "8.10" |}
           (IsDistroBase {| distribution := "almalinux"; series := "9.4" |}) = Ok r.
Proof.
  assert (H1 : numeric_series (series {| distribution := "almalinux"; series := "8.10" |})
               = Some [8; 10]%N) by reflexivity.
  assert (H2 : numeric_series (series {| distribution := "almalinux"; series := "9.4" |})
               = Some [9; 4]%N) by reflexivity.
  assert (H3 : within_digit_cap
                 (series {| distribution := "almalinux"; series := "8.10" |}) = true)
    by reflexivity.
  assert (H4 : within_digit_cap
                 (series {| distribution := "almalinux"; series := "9.4" |}) = true)
    by reflexivity.
  split; [exact H1|]. split; [exact H2|]. split; [exact H3|]. split; [exact H4|].
  exact (proj1 (X10_numeric_series_total
                  {| distribution := "almalinux"; series := "8.10" |}
                  {| distribution := "almalinux"; series := "9.4" |}
                  [8; 10]%N [9; 4]%N eq_refl H1 H2 H3 H4) Py_GE).
Defined.

Lemma numeric_component_free (t : string) (n : N) :
  numeric_component t = Some n → free_of "." t.
Proof.
  destruct t as [|c0 t0]; [discriminate|]. unfold numeric_component.
  generalize (String c0 t0) 0%N. clear.
  intros t. induction t as [|c t IH]; intros acc H; [apply free_of_empty|].
  simpl in H. destruct (is_digit c) eqn:Hc; [|discriminate].
  apply free_of_cons. split; [|now apply (IH _ H)].
  intros ->. discriminate Hc.
Qed.

Lemma PyLong_FromString_sign (t : string) :
  PyLong_FromString (String "-" t)
  = match long_from_string_base t with
    | Some (v, rest) =>
        match skip_space rest with
        | EmptyString => Some (-1 * Z.of_N v)%Z
        | String _ _ => None
        end
    | None => None
    end
  ∧ PyLong_FromString (String "+" t)
    = match long_from_string_base t with
      | Some (v, rest) =>
          match skip_space rest with
          | EmptyString => Some (1 * Z.of_N v)%Z
          | String _ _ => None
          end
      | None => None
      end
  ∧ PyLong_FromString (String " " t) = PyLong_FromString t.
Proof. repeat split. Qed.

Lemma int_signed (t : string) (n : N) :
  numeric_component t = Some n →
  (N.of_nat (String.length t) <= max_str_digits)%N →
  int (String "-" t) = Some (- Z.of_N n)%Z
  ∧ int (String "+" t) = Some (Z.of_N n)
  ∧ int (String " " t) = Some (Z.of_N n).
Proof.
  intros H Hcap. pose proof (int_numeric_component t n H Hcap) as Hint.
  pose proof (long_from_string_base_digits t n H Hcap) as Hl.
  assert (Ht : TransformDecimalAndSpaceToASCII t = t).
  { destruct t as [|c t]; [reflexivity|].
    unfold numeric_component in H. now apply (transform_digits _ _ _ H). }
  destruct (PyLong_FromString_sign t) as (Hm & Hp & Hs).
  unfold int in *.
  change (TransformDecimalAndSpaceToASCII (String "-" t))
    with (String "-" (TransformDecimalAndSpaceToASCII t)).
  change (TransformDecimalAndSpaceToASCII (String "+" t))
    with (String "+" (TransformDecimalAndSpaceToASCII t)).
  change (TransformDecimalAndSpaceToASCII (String " " t))
    with (String " " (TransformDecimalAndSpaceToASCII t)).
  rewrite Ht in *. rewrite Hm, Hp, Hs, Hl. cbn [skip_space].
  split; [|split]; [f_equal; now destruct n | f_equal; now destruct n | exact Hint].
Qed.

(** X11. A sign or a leading blank does not keep a component from being
    a number: for a run of no more than [max_str_digits] digits [t] of
    value [n], the series [-t] has the version tuple [(-n,)], and the
    series [+t] and [t] after a blank both have [(n,)], the tuple of [t]
    itself. *)
Theorem X11_signed_component (t : string) (n : N) :
  numeric_component t = Some n →
  (N.of_nat (String.length t) <= max_str_digits)%N →
  _get_version_tuple t = [PyInt (Z.of_N n)]
  ∧ _get_version_tuple (String "-" t) = [PyInt (- Z.of_N n)]
  ∧ _get_version_tuple (String "+" t) = [PyInt (Z.of_N n)]
  ∧ _get_version_tuple (String " " t) = [PyInt (Z.of_N n)].
Proof.
  intros H Hcap. pose proof (numeric_component_free t n H) as Hf.
  destruct (int_signed t n H Hcap) as (Hm & Hp & Hs).
  rewrite !_get_version_tuple_coerce.
  rewrite (split_free_piece "." t Hf).
  rewrite !split_free_piece
    by (apply free_of_cons; split; [discriminate | exact Hf]).
  cbn [fmap list_fmap]. unfold coerce.
  now rewrite (int_numeric_component t n H Hcap), Hm, Hp, Hs.
Qed.

Lemma X11_signed_component_witness :
  numeric_component "10" = Some 10%N
  ∧ (N.of_nat (String.length "10") <= max_str_digits)%N
  ∧ _get_version_tuple "-10" = [PyInt (-10)].
Proof.
  assert (H : numeric_component "10" = Some 10%N) by reflexivity.
  assert (Hcap : (N.of_nat (String.length "10") <= max_str_digits)%N)
    by (apply N.leb_le; reflexivity).
  split; [exact H|]. split; [exact Hcap|].
  exact (proj1 (proj2 (X11_signed_component "10" 10%N H Hcap))).
Defined.

(** X12. A number against a name: when the first piece of one series
    reads as an integer and the first piece of the other does not, every
    ordering between the two bases of one distribution raises
    [TypeError], from either side. *)
Theorem X12_number_against_name
    (op : cmpop) (a b : DistroBase) (ta tb : string) (ra rb : list string)
    (z : Z) :
  distribution a = distribution b →
  tokens_of "." (series a) (ta :: ra) →
  tokens_of "." (series b) (tb :: rb) →
  int ta = Some z →
  int tb = None →
  base_cmp op a (IsDistroBase b) = Raise TypeError
  ∧ base_cmp op b (IsDistroBase a) = Raise TypeError.
Proof.
  intros Hd Ha Hb Hza Hzb.
  apply tokens_of_unique in Ha, Hb.
  unfold base_cmp. rewrite !method_ordering.
  rewrite (ordering_compares op a (IsDistroBase b) (series b))
    by (simpl; congruence).
  rewrite (ordering_compares op b (IsDistroBase a) (series a))
    by (simpl; congruence).
  rewrite !_get_version_tuple_coerce, <- Ha, <- Hb.
  cbn [fmap list_fmap]. unfold coerce at 1 3 5 7. rewrite Hza, Hzb.
  split; reflexivity.
Qed.

Lemma X12_number_against_name_witness :
  tokens_of "." "12" ["12"]
  ∧ tokens_of "." "bookworm" ["bookworm"]
  ∧ base_cmp Py_LT {| distribution := "debian"; series := "12" |}
      (IsDistroBase {| distribution := "debian"; series := "bookworm" |})
    = Raise TypeError.
Proof.
  assert (H1 : tokens_of "." "12" ["12"]) by apply (tokens_of_split "." "12").
  assert (H2 : tokens_of "." "bookworm" ["bookworm"])
    by apply (tokens_of_split "." "bookworm").
  split; [exact H1|]. split; [exact H2|].
  exact (proj1 (X12_number_against_name Py_LT
                  {| distribution := "debian"; series := "12" |}
                  {| distribution := "debian"; series := "bookworm" |}
                  "12" "bookworm" [] [] 12%Z eq_refl H1 H2 eq_refl eq_refl)).
Defined.

(** ** Further properties of the Ubuntu test and of host descriptors *)

Lemma word_prefix_rest_no_space (s : string) :
  no_space s → word_prefix s = s ∧ word_rest s = EmptyString.
Proof.
  induction s as [|c s IH]; [now split|]. intros [Hc Hs].
  cbn [word_prefix word_rest]. rewrite Hc.
  destruct (IH Hs) as [-> ->]. now split.
Qed.

Lemma split_whitespace_single (s : string) :
  no_space s → s ≠ EmptyString → split_whitespace s = [s].
Proof.
  destruct s as [|c s]; [contradiction|]. intros [Hc Hs] _.
  rewrite (split_whitespace_word s c Hc).
  now destruct (word_prefix_rest_no_space s Hs) as [-> ->].
Qed.

Lemma is_ubuntu_like_unfold (host d : distro.LinuxDistribution) :
  is_ubuntu_like host (Some d)
  = String.eqb (distro.id d) "ubuntu"
    || bool_decide ("ubuntu" ∈ split_whitespace (distro.like d)).
Proof.
  change (is_ubuntu_like host (Some d))
    with (if String.eqb (distro.id d) "ubuntu" then true
          else if bool_decide ("ubuntu" ∈ split_whitespace (distro.like d))
               then true else false).
  destruct (String.eqb (distro.id d) "ubuntu"); [reflexivity|].
  now destruct (bool_decide _).
Qed.

(** X13. With a [like] field of a single word, only the exact word
    counts: the distribution is Ubuntu-like exactly when its id or its
    [like] field is [ubuntu], so a longer word that holds [ubuntu] does
    not qualify. *)
Theorem X13_single_word_like (host d : distro.LinuxDistribution) :
  no_space (distro.like d) →
  (is_ubuntu_like host (Some d) = true
   ↔ distro.id d = "ubuntu" ∨ distro.like d = "ubuntu").
Proof.
  intros Hns. rewrite is_ubuntu_like_unfold, orb_true_iff, String.eqb_eq.
  rewrite bool_decide_eq_true.
  destruct (decide (distro.like d = EmptyString)) as [He|Hne].
  - rewrite He. simpl. rewrite elem_of_nil. split; intros [H|H]; auto; easy.
  - rewrite (split_whitespace_single _ Hns Hne), list_elem_of_singleton.
    split; intros [H|H]; auto.
Qed.

Lemma X13_single_word_like_witness :
  no_space "ubuntu-core"
  ∧ is_ubuntu_like
      {| distro.id := "debian"; distro.version := "12"; distro.like := EmptyString |}
      (Some {| distro.id := "snappy"; distro.version := "16";
               distro.like := "ubuntu-core" |}) ≠ true.
Proof.
  assert (H : no_space "ubuntu-core") by (cbn; repeat split).
  split; [exact H|].
  intros Htrue.
  apply (X13_single_word_like
           {| distro.id := "debian"; distro.version := "12"; distro.like := EmptyString |}
           {| distro.id := "snappy"; distro.version := "16";
              distro.like := "ubuntu-core" |} H) in Htrue.
  destruct Htrue as [Hid|Hlike]; discriminate.
Defined.

Lemma word_prefix_append (a b : string) (c : ascii) :
  Py_UNICODE_ISSPACE c = true →
  word_prefix (a +:+ String c b) = word_prefix a
  ∧ word_rest (a +:+ String c b) = word_rest a +:+ String c b.
Proof.
  intros Hc. induction a as [|x a [IH1 IH2]].
  - rewrite append_empty_l. cbn [word_prefix word_rest]. now rewrite Hc.
  - rewrite append_cons. cbn [word_prefix word_rest].
    destruct (Py_UNICODE_ISSPACE x); [now split|].
    now rewrite IH1, IH2.
Qed.

Lemma split_whitespace_append (c : ascii) (b : string) :
  Py_UNICODE_ISSPACE c = true →
  ∀ n a, String.length a ≤ n →
         split_whitespace (a +:+ String c b)
         = split_whitespace a ++ split_whitespace b.
Proof.
  intros Hc. induction n as [|n IH]; intros [|x a] Hlen; simpl in Hlen;
    try lia.
  - rewrite append_empty_l, split_whitespace_cons, Hc. reflexivity.
  - rewrite append_empty_l, split_whitespace_cons, Hc. reflexivity.
  - rewrite append_cons. destruct (Py_UNICODE_ISSPACE x) eqn:Hx.
    + rewrite !split_whitespace_cons, Hx. apply IH. lia.
    + rewrite !(split_whitespace_word _ x Hx).
      destruct (word_prefix_append a b c Hc) as [-> ->].
      pose proof (word_rest_length a). rewrite IH by lia. reflexivity.
Qed.

(** X14. Words add up: for a [like] field made of two texts with a white
    space character between them, the distribution is Ubuntu-like
    exactly when it is with one of the two texts as its [like] field. *)
Theorem X14_like_words_add_up
    (host : distro.LinuxDistribution) (i v l1 l2 : string) (c : ascii) :
  Py_UNICODE_ISSPACE c = true →
  is_ubuntu_like host
    (Some {| distro.id := i; distro.version := v;
             distro.like := l1 +:+ String c l2 |})
  = is_ubuntu_like host
      (Some {| distro.id := i; distro.version := v; distro.like := l1 |})
    || is_ubuntu_like host
         (Some {| distro.id := i; distro.version := v; distro.like := l2 |}).
Proof.
  intros Hc. rewrite !is_ubuntu_like_unfold. cbn [distro.id distro.like].
  rewrite (split_whitespace_append c l2 Hc (String.length l1) l1) by lia.
  destruct (String.eqb i "ubuntu"); [reflexivity|]. cbn [orb].
  rewrite <- bool_decide_or. apply bool_decide_ext. apply elem_of_app.
Qed.

Lemma X14_like_words_add_up_witness :
  Py_UNICODE_ISSPACE " " = true
  ∧ is_ubuntu_like
      {| distro.id := "debian"; distro.version := "12"; distro.like := EmptyString |}
      (Some {| distro.id := "linuxmint"; distro.version := "21";
               distro.like := "ubuntu debian" |})
    = is_ubuntu_like
        {| distro.id := "debian"; distro.version := "12"; distro.like := EmptyString |}
        (Some {| distro.id := "linuxmint"; distro.version := "21";
                 distro.like := "ubuntu" |})
      || is_ubuntu_like
           {| distro.id := "debian"; distro.version := "12"; distro.like := EmptyString |}
           (Some {| distro.id := "linuxmint"; distro.version := "21";
                    distro.like := "debian" |}).
Proof.
  assert (H : Py_UNICODE_ISSPACE " " = true) by reflexivity.
  split; [exact H|].
  exact (X14_like_words_add_up
           {| distro.id := "debian"; distro.version := "12"; distro.like := EmptyString |}
           "linuxmint" "21" "ubuntu" "debian" " " H).
Defined.

(** X15. The base of a host descriptor is the one [from_str] reads from
    its id, an [@] and its version, when neither holds an [@]; and it
    equals the pair and the named shape made of the id and the version. *)
Theorem X15_from_linux_distribution (d : distro.LinuxDistribution) :
  free_of "@" (distro.id d) →
  free_of "@" (distro.version d) →
  from_str (distro.id d +:+ String "@" (distro.version d))
  = Ok (from_linux_distribution d)
  ∧ base_eq (from_linux_distribution d)
      (IsTuple [distro.id d; distro.version d]) = Ok true
  ∧ base_eq (from_linux_distribution d)
      (IsBaseName (distro.id d) (distro.version d)) = Ok true.
Proof.
  intros Hi Hv. split; [now apply from_str_parts|]. split.
  - rewrite base_eq_pair. now apply f_equal, bool_decide_eq_true_2.
  - unfold base_eq, __eq__, from_linux_distribution. run.
    now rewrite !String.eqb_refl.
Qed.

Lemma X15_from_linux_distribution_witness :
  from_str "centos@7"
  = Ok (from_linux_distribution
          {| distro.id := "centos"; distro.version := "7";
             distro.like := "rhel fedora" |}).
Proof.
  apply (X15_from_linux_distribution
           {| distro.id := "centos"; distro.version := "7";
              distro.like := "rhel fedora" |});
    apply count_free; reflexivity.
Defined.
